(** * QUIC tags and the QBONE session base

    A shallow embedding of [quic/core/quic_tag.cc] (tag packing, display,
    parsing and mutual-tag negotiation) and of the interface declared in
    [quic/qbone/qbone_session_base.h], with the properties the
    specification states about them. *)

From Stdlib Require Import ZArith Ascii String List Bool Lia.
Import ListNotations.
Local Open Scope Z_scope.

(** ** Machine integers and characters *)

(** [QuicTag] is [uint32_t]; [size_t] indices are natural numbers. *)
Definition QuicTag := Z.

Definition uint32_mod : Z := 2 ^ 32.
Definition uint64_mod : Z := 2 ^ 64.

Definition wrap32 (z : Z) : Z := z mod uint32_mod.
Definition wrap64 (z : Z) : Z := z mod uint64_mod.

Definition is_uint32 (z : Z) : Prop := 0 <= z < uint32_mod.

(** A C++ string ([std::string], [absl::string_view]) is its sequence of
    [char]s; a [char] is the 8-bit pattern it stores. *)
Definition cstring := list ascii.

Definition lit (s : string) : cstring := list_ascii_of_string s.

(** [static_cast<unsigned char>(c)]. *)
Definition uchar (c : ascii) : Z := Z.of_N (N_of_ascii c).

(** [static_cast<char>(z)]: the low eight bits. *)
Definition to_char (z : Z) : ascii := ascii_of_N (Z.to_N (z mod 256)).

(** What the C++ implementation leaves to the platform: whether plain
    [char] is signed, and the byte order of an object in memory. *)
Record Platform := {
  char_is_signed : bool;
  little_endian : bool
}.

(** [static_cast<uint32_t>(c)] for a plain [char]: a signed [char] is first
    read as a value in [-128, 127] and then converted modulo [2^32]. *)
Definition char_to_uint32 (p : Platform) (c : ascii) : Z :=
  if char_is_signed p && (128 <=? uchar c)
  then wrap32 (uchar c - 256)
  else uchar c.

(** ** Library primitives used by [quic_tag.cc] *)

(** [isprint] of the C library, in the C locale: the printable ASCII
    characters, 0x20 to 0x7e. *)
Definition isprint (b : Z) : bool := (32 <=? b) && (b <=? 126).

(** Modelled from the spec: [QuicheTextUtils] is not in the sources; its
    trim-whitespace primitive removes ASCII white space (tab, line feed,
    vertical tab, form feed, carriage return, space) at both ends. *)
Definition is_space (c : ascii) : bool :=
  let b := uchar c in ((9 <=? b) && (b <=? 13)) || (b =? 32).

Fixpoint drop_space (s : cstring) : cstring :=
  match s with
  | c :: rest => if is_space c then drop_space rest else s
  | [] => []
  end.

Definition RemoveLeadingAndTrailingWhitespace (s : cstring) : cstring :=
  rev (drop_space (rev (drop_space s))).

(** Modelled from the spec: [QuicheTextUtils::Split], the
    split-on-delimiter primitive, is not in the sources; every occurrence
    of the delimiter ends a piece, with no escaping, and empty pieces are
    kept. *)
Fixpoint Split (s : cstring) (delim : ascii) : list cstring :=
  match s with
  | [] => [[]]
  | c :: rest =>
      if Ascii.eqb c delim then [] :: Split rest delim
      else match Split rest delim with
           | piece :: pieces => (c :: piece) :: pieces
           | [] => [[c]]
           end
  end.

(** Modelled from the spec: [QuicheTextUtils::HexEncode], the hex-encode
    primitive, is not in the sources; each byte becomes two lowercase
    hexadecimal characters, high nibble first. *)
Definition hex_digit (n : Z) : ascii :=
  if n <? 10 then to_char (48 + n) else to_char (87 + n).

Definition HexEncode (bytes : cstring) : cstring :=
  flat_map (fun c => [hex_digit (uchar c / 16); hex_digit (uchar c mod 16)])
           bytes.

Definition is_lower_hex (c : ascii) : bool :=
  let b := uchar c in
  ((48 <=? b) && (b <=? 57)) || ((97 <=? b) && (b <=? 102)).

(** ** quic_tag.cc *)

Module Tag.

(** *** FindMutualQuicTag *)

(** The two output parameters of [FindMutualQuicTag]: the cell [out_result]
    points to, and the cell [out_index] points to when it is not null. *)
Record OutParams := {
  out_result : QuicTag;
  out_index : option nat
}.

(** [*out_result = t; if (out_index != nullptr) *out_index = j;] *)
Definition store_match (m : OutParams) (t : QuicTag) (j : nat) : OutParams :=
  {| out_result := t;
     out_index := match out_index m with
                  | Some _ => Some j
                  | None => None
                  end |}.

(** The inner loop, from index [j] on: [Some m'] when a peer tag equal to
    [our_i] is met (the function then returns true with memory [m']). *)
Fixpoint inner_loop (our_i : QuicTag) (their_tags : list QuicTag) (j : nat)
         (m : OutParams) : option OutParams :=
  match their_tags with
  | [] => None
  | t :: rest =>
      if our_i =? t then Some (store_match m our_i j)
      else inner_loop our_i rest (S j) m
  end.

(** The outer loop over [our_tags]; falling out of it returns false. *)
Fixpoint outer_loop (our_tags their_tags : list QuicTag) (m : OutParams)
  : bool * OutParams :=
  match our_tags with
  | [] => (false, m)
  | t :: rest =>
      match inner_loop t their_tags 0%nat m with
      | Some m' => (true, m')
      | None => outer_loop rest their_tags m
      end
  end.

Definition FindMutualQuicTag (our_tags their_tags : list QuicTag)
           (m : OutParams) : bool * OutParams :=
  outer_loop our_tags their_tags m.

(** *** MakeQuicTag *)

Definition MakeQuicTag (p : Platform) (a b c d : ascii) : QuicTag :=
  Z.lor (Z.lor (Z.lor (char_to_uint32 p a)
                      (wrap32 (Z.shiftl (char_to_uint32 p b) 8)))
               (wrap32 (Z.shiftl (char_to_uint32 p c) 16)))
        (wrap32 (Z.shiftl (char_to_uint32 p d) 24)).

(** *** ContainsQuicTag *)

(** [std::find(first, last, tag)] over the vector, an iterator being the
    index it points at: the index of the first element equal to [tag] at or
    after [first], or the end index when there is none. *)
Fixpoint std_find (v : list QuicTag) (tag : QuicTag) (first : nat) : nat :=
  match v with
  | [] => first
  | x :: rest => if x =? tag then first else std_find rest tag (S first)
  end.

Definition ContainsQuicTag (tag_vector : list QuicTag) (tag : QuicTag)
  : bool :=
  negb (std_find tag_vector tag 0 =? length tag_vector)%nat.

(** *** QuicTagToString *)

(** The character stored in [chars[i]]: the low byte of [tag], replaced by
    a space when it is 0 or 0xff and [i] is the last index. *)
Definition stored_char (i : Z) (tag : Z) : ascii :=
  let c := to_char tag in
  if (Ascii.eqb c (to_char 0) || Ascii.eqb c (to_char 255)) && (i =? 3)
  then " "%char
  else c.

(** The [for] loop over [chars]: [n] iterations remain, [i] is the index
    and [acc] holds [chars[0..i)]. The result is the flag [ascii] and the
    characters stored so far. *)
Fixpoint chars_loop (n : nat) (i : Z) (tag : Z) (acc : cstring)
  : bool * cstring :=
  match n with
  | O => (true, acc)
  | S n' =>
      let c := stored_char i tag in
      if negb (isprint (uchar c)) then (false, acc ++ [c])
      else chars_loop n' (i + 1) (Z.shiftr tag 8) (acc ++ [c])
  end.

(** The object representation of a [uint32_t], as read through
    [reinterpret_cast<const char*>(&orig_tag)]. *)
Definition object_bytes (p : Platform) (tag : Z) : cstring :=
  let le := [to_char tag; to_char (Z.shiftr tag 8);
             to_char (Z.shiftr tag 16); to_char (Z.shiftr tag 24)] in
  if little_endian p then le else rev le.

Definition QuicTagToString (p : Platform) (tag : QuicTag) : cstring :=
  if tag =? 0 then lit "0"
  else
    let '(ascii, chars) := chars_loop 4 0 tag [] in
    if ascii then chars else HexEncode (object_bytes p tag).

(** *** ParseQuicTag and ParseQuicTagVector *)

Section Parse.

(** [QuicheTextUtils::HexDecode] is not in the sources and what it returns
    for text that is not hexadecimal is not stated: it is a parameter. *)
Variable HexDecode : cstring -> cstring.

(** One step of the right-to-left loop: [tag <<= 8; tag |= token_char]. *)
Definition shift_in (tag : Z) (c : ascii) : Z :=
  Z.lor (wrap32 (Z.shiftl tag 8)) (uchar c).

Definition ParseQuicTag (tag_string : cstring) : QuicTag :=
  let tag_string := RemoveLeadingAndTrailingWhitespace tag_string in
  let tag_string :=
    if (length tag_string =? 8)%nat then HexDecode tag_string
    else tag_string in
  fold_left shift_in (rev tag_string) 0.

Definition ParseQuicTagVector (tags_string : cstring) : list QuicTag :=
  let tags_string := RemoveLeadingAndTrailingWhitespace tags_string in
  match tags_string with
  | [] => []
  | _ => map ParseQuicTag (Split tags_string ","%char)
  end.

End Parse.

(** A lenient hex decoder in the manner of [absl::HexStringToBytes], used
    to run the parser on examples: a character that is not a hex digit
    counts as zero. *)
Definition hex_value (c : ascii) : Z :=
  let b := uchar c in
  if (48 <=? b) && (b <=? 57) then b - 48
  else if (97 <=? b) && (b <=? 102) then b - 87
  else if (65 <=? b) && (b <=? 70) then b - 55
  else 0.

Fixpoint HexDecodeLenient (s : cstring) : cstring :=
  match s with
  | hi :: lo :: rest =>
      to_char (hex_value hi * 16 + hex_value lo) :: HexDecodeLenient rest
  | _ => []
  end.

End Tag.

(** ** qbone_session_base.h *)

Module Qbone.

(** What the transport answers to an attempt to send a datagram. *)
Inductive DatagramStatus :=
| DatagramSent
| DatagramUnsupported
| DatagramOverCapacity.

(** The transport as one call to [SendPacketToPeer] sees it: the answer of
    the datagram primitive for a payload, and whether an outgoing stream
    can be created now. *)
Record Transport := {
  trySendDatagram : cstring -> DatagramStatus;
  openOutgoingStream : bool
}.

(** A fallback stream: the payload written to it and whether end-of-stream
    has been signalled. *)
Record Stream := {
  stream_data : cstring;
  stream_fin : bool
}.

(** The session: the counters declared in the header ([uint64_t]), and the
    datagrams sent and fallback streams opened so far, newest first. *)
Record QboneSessionBase := {
  crypto_stream_ : bool;
  num_ephemeral_packets_ : Z;
  num_message_packets_ : Z;
  num_streamed_packets_ : Z;
  num_fallback_to_stream_ : Z;
  sent_datagrams : list cstring;
  opened_streams : list Stream
}.

Definition with_datagram (s : QboneSessionBase) (packet : cstring)
  : QboneSessionBase :=
  {| crypto_stream_ := crypto_stream_ s;
     num_ephemeral_packets_ := num_ephemeral_packets_ s;
     num_message_packets_ := num_message_packets_ s;
     num_streamed_packets_ := num_streamed_packets_ s;
     num_fallback_to_stream_ := num_fallback_to_stream_ s;
     sent_datagrams := packet :: sent_datagrams s;
     opened_streams := opened_streams s |}.

Definition with_stream (s : QboneSessionBase) (st : Stream)
  : QboneSessionBase :=
  {| crypto_stream_ := crypto_stream_ s;
     num_ephemeral_packets_ := num_ephemeral_packets_ s;
     num_message_packets_ := num_message_packets_ s;
     num_streamed_packets_ := num_streamed_packets_ s;
     num_fallback_to_stream_ := num_fallback_to_stream_ s;
     sent_datagrams := sent_datagrams s;
     opened_streams := st :: opened_streams s |}.

Definition count_fallback (s : QboneSessionBase) : QboneSessionBase :=
  {| crypto_stream_ := crypto_stream_ s;
     num_ephemeral_packets_ := num_ephemeral_packets_ s;
     num_message_packets_ := num_message_packets_ s;
     num_streamed_packets_ := num_streamed_packets_ s;
     num_fallback_to_stream_ := wrap64 (num_fallback_to_stream_ s + 1);
     sent_datagrams := sent_datagrams s;
     opened_streams := opened_streams s |}.

(** Modelled from the spec: the body of [SendPacketToPeer] is not in the
    sources, only its declaration, [void SendPacketToPeer(packet)]. The
    datagram primitive is tried first; when it reports unsupported or over
    capacity, a stream is opened for this payload, the payload is written
    and end-of-stream signalled, and the fallback counter is incremented.
    The spec does not say whether a fallback whose stream cannot be created
    is counted: [count_failed] stands for that choice. The result type is
    the declared one, [void]. *)
Definition SendPacketToPeer (count_failed : bool) (tr : Transport)
           (packet : cstring) (s : QboneSessionBase)
  : unit * QboneSessionBase :=
  match trySendDatagram tr packet with
  | DatagramSent => (tt, with_datagram s packet)
  | DatagramUnsupported | DatagramOverCapacity =>
      if openOutgoingStream tr
      then (tt, with_stream (count_fallback s)
                            {| stream_data := packet; stream_fin := true |})
      else (tt, if count_failed then count_fallback s else s)
  end.

(** Modelled from the spec: the body of [ShouldKeepConnectionAlive] is not
    in the sources, only its declaration; it answers true whatever the
    session holds. *)
Definition ShouldKeepConnectionAlive (s : QboneSessionBase) : bool := true.

End Qbone.

Import Tag.

(** ** Vocabulary of the statements *)

(** Byte [i] of a tag, byte 0 being the least significant. *)
Definition tag_byte (tag : Z) (i : Z) : Z := Z.shiftr tag (8 * i) mod 256.

(** The most significant byte as [QuicTagToString] shows it. *)
Definition high_byte_shown (b : Z) : Z :=
  if (b =? 0) || (b =? 255) then 32 else b.

(** The four bytes [QuicTagToString] tests for printability, in the order
    it extracts them. *)
Definition shown_bytes (tag : Z) : list Z :=
  [tag_byte tag 0; tag_byte tag 1; tag_byte tag 2;
   high_byte_shown (tag_byte tag 3)].

Definition raw_bytes (tag : Z) : list Z :=
  [tag_byte tag 0; tag_byte tag 1; tag_byte tag 2; tag_byte tag 3].

(** A platform with signed [char] and little-endian memory (x86-64), and
    one with unsigned [char]. *)
Definition signed_le : Platform :=
  {| char_is_signed := true; little_endian := true |}.

Definition unsigned_le : Platform :=
  {| char_is_signed := false; little_endian := true |}.

(** The characters [static_cast<uint32_t>] converts to their byte value:
    all of them where [char] is unsigned, the 7-bit ones elsewhere. *)
Definition plain_char (p : Platform) (c : ascii) : Prop :=
  char_is_signed p = false \/ uchar c < 128.

(** Whether [static_cast<uint32_t>] sign-extends the character: plain
    [char] is signed and the character is 0x80 or more. *)
Definition sign_extends (p : Platform) (c : ascii) : bool :=
  char_is_signed p && (128 <=? uchar c).

(** The 32-bit word with the given bytes, least significant first. *)
Definition word_of_bytes (b0 b1 b2 b3 : Z) : Z :=
  b0 + 256 * b1 + 65536 * b2 + 16777216 * b3.

(** The byte a sign extension leaves above the character. *)
Definition fill (extended : bool) : Z := if extended then 255 else 0.

(** The number a byte string denotes with its first byte least
    significant. *)
Fixpoint le_value (s : cstring) : Z :=
  match s with
  | [] => 0
  | c :: rest => uchar c + 256 * le_value rest
  end.

(** The text [ParseQuicTag] reads its bytes from: the trimmed input, hex
    decoded when it has exactly eight characters. *)
Definition tag_text (HexDecode : cstring -> cstring) (s : cstring)
  : cstring :=
  if (length (RemoveLeadingAndTrailingWhitespace s) =? 8)%nat
  then HexDecode (RemoveLeadingAndTrailingWhitespace s)
  else RemoveLeadingAndTrailingWhitespace s.

(** Removal of white space at the right end only, the second half of
    [RemoveLeadingAndTrailingWhitespace]. *)
Definition drop_space_right (s : cstring) : cstring :=
  rev (drop_space (rev s)).

(** The same text up to white space at the ends. *)
Definition same_trimmed (a b : cstring) : Prop :=
  RemoveLeadingAndTrailingWhitespace a = RemoveLeadingAndTrailingWhitespace b.

(** The texts of a list written one after the other with a comma between
    them, as in a configured tag list. *)
Fixpoint comma_join (pieces : list cstring) : cstring :=
  match pieces with
  | [] => []
  | [piece] => piece
  | piece :: rest => piece ++ ","%char :: comma_join rest
  end.

(** The tags that can be written in a comma-separated list: four printable
    bytes, none of them a comma, the first and last not a space. *)
Definition list_safe (t : QuicTag) : Prop :=
  is_uint32 t /\ forallb isprint (raw_bytes t) = true /\
  tag_byte t 0 <> 32 /\ tag_byte t 3 <> 32 /\ ~ In 44 (raw_bytes t).

(** The NUL character, which pads a tag of fewer than four characters. *)
Definition nul : ascii := to_char 0.

(** Two tags of printable bytes with a space at one end: ' ','A','B','C'
    and 'A','B','C',' '. *)
Definition space_first_tag : QuicTag := 1128415520.
Definition space_last_tag : QuicTag := 541278785.

(** A transport on which nothing can be sent now, one on which datagrams
    go through, and a session that has not sent or received anything. *)
Definition transport_down : Qbone.Transport :=
  {| Qbone.trySendDatagram := fun _ => Qbone.DatagramUnsupported;
     Qbone.openOutgoingStream := false |}.

Definition transport_up : Qbone.Transport :=
  {| Qbone.trySendDatagram := fun _ => Qbone.DatagramSent;
     Qbone.openOutgoingStream := true |}.

Definition transport_streams_only : Qbone.Transport :=
  {| Qbone.trySendDatagram := fun _ => Qbone.DatagramOverCapacity;
     Qbone.openOutgoingStream := true |}.

Definition idle_session : Qbone.QboneSessionBase :=
  {| Qbone.crypto_stream_ := true;
     Qbone.num_ephemeral_packets_ := 0;
     Qbone.num_message_packets_ := 0;
     Qbone.num_streamed_packets_ := 0;
     Qbone.num_fallback_to_stream_ := 0;
     Qbone.sent_datagrams := [];
     Qbone.opened_streams := [] |}.

(** ** The functions on concrete inputs *)

Example MakeQuicTag_QBIC :
  MakeQuicTag signed_le "Q" "B" "I" "C" = 1128874577.
Proof. reflexivity. Qed.

Example MakeQuicTag_unsigned_high_byte :
  MakeQuicTag unsigned_le (to_char 128) (to_char 0) (to_char 0) (to_char 0)
  = 128.
Proof. reflexivity. Qed.

Example QuicTagToString_zero : QuicTagToString signed_le 0 = lit "0".
Proof. reflexivity. Qed.

Example QuicTagToString_padded :
  QuicTagToString signed_le (MakeQuicTag signed_le "A" "B" "C" (to_char 0))
  = lit "ABC ".
Proof. reflexivity. Qed.

Example QuicTagToString_one_little_endian :
  QuicTagToString signed_le 1 = lit "01000000".
Proof. reflexivity. Qed.

Example ParseQuicTag_trims :
  ParseQuicTag HexDecodeLenient (lit "  ABCD ")
  = MakeQuicTag signed_le "A" "B" "C" "D".
Proof. reflexivity. Qed.

Example ParseQuicTag_hex_form :
  ParseQuicTag HexDecodeLenient (lit "01000000") = 1.
Proof. reflexivity. Qed.

Example ParseQuicTag_long_input :
  ParseQuicTag HexDecodeLenient (lit "ABCDE")
  = MakeQuicTag signed_le "A" "B" "C" "D".
Proof. reflexivity. Qed.

Example ParseQuicTagVector_config :
  ParseQuicTagVector HexDecodeLenient (lit "QBIC, ABCD")
  = [MakeQuicTag signed_le "Q" "B" "I" "C";
     MakeQuicTag signed_le "A" "B" "C" "D"].
Proof. reflexivity. Qed.

Example ParseQuicTagVector_empty_piece :
  ParseQuicTagVector HexDecodeLenient (lit "QBIC,,") = [1128874577; 0; 0].
Proof. reflexivity. Qed.

Example FindMutualQuicTag_disjoint :
  FindMutualQuicTag [1128874577] [1145258561]
                    {| out_result := 0; out_index := None |}
  = (false, {| out_result := 0; out_index := None |}).
Proof. reflexivity. Qed.

Example SendPacketToPeer_datagram_path :
  snd (Qbone.SendPacketToPeer false transport_up (lit "PING") idle_session)
  = Qbone.with_datagram idle_session (lit "PING").
Proof. reflexivity. Qed.

(** ** Bytes, characters and bit operations *)

(** The powers of two that occur with bytes of a 32-bit word. *)
Ltac pow2_consts :=
  change (2 ^ 0) with 1 in *; change (2 ^ 8) with 256 in *;
  change (2 ^ 16) with 65536 in *; change (2 ^ 24) with 16777216 in *;
  change (2 ^ 32) with 4294967296 in *.

Lemma uchar_range (c : ascii) : 0 <= uchar c < 256.
Proof.
  unfold uchar. pose proof (N_ascii_bounded c). lia.
Qed.

Lemma to_char_uchar (c : ascii) : to_char (uchar c) = c.
Proof.
  unfold to_char. rewrite Z.mod_small by apply uchar_range.
  unfold uchar. rewrite N2Z.id. apply ascii_N_embedding.
Qed.

Lemma uchar_to_char (z : Z) : uchar (to_char z) = z mod 256.
Proof.
  unfold uchar, to_char.
  assert (H : 0 <= z mod 256 < 256) by (apply Z.mod_pos_bound; lia).
  rewrite N_ascii_embedding by lia. lia.
Qed.

Lemma to_char_eqb (x y : Z) :
  Ascii.eqb (to_char x) (to_char y) = (x mod 256 =? y mod 256).
Proof.
  destruct (Ascii.eqb_spec (to_char x) (to_char y)) as [E|E].
  - apply (f_equal uchar) in E. rewrite !uchar_to_char in E.
    symmetry. now apply Z.eqb_eq.
  - symmetry. apply Z.eqb_neq. intros H. apply E.
    unfold to_char. now rewrite H.
Qed.

Lemma land_shiftl_low (x b k : Z) :
  0 <= k -> 0 <= b < 2 ^ k -> Z.land (Z.shiftl x k) b = 0.
Proof.
  intros Hk Hb. apply Z.bits_inj'. intros n Hn.
  rewrite Z.land_spec, Z.bits_0.
  destruct (Z.ltb_spec n k) as [Hlt|Hge].
  - rewrite Z.shiftl_spec_low by assumption. reflexivity.
  - assert (Hbn : Z.testbit b n = false).
    { destruct (Z.eq_dec b 0) as [->|Hnz]; [apply Z.bits_0|].
      apply Z.bits_above_log2; [lia|].
      apply Z.lt_le_trans with k; [|assumption].
      apply Z.log2_lt_pow2; lia. }
    rewrite Hbn. apply andb_false_r.
Qed.

Lemma lor_shiftl_low (x b k : Z) :
  0 <= k -> 0 <= b < 2 ^ k -> Z.lor (Z.shiftl x k) b = x * 2 ^ k + b.
Proof.
  intros Hk Hb.
  rewrite <- Z.lxor_lor by (apply land_shiftl_low; assumption).
  rewrite <- Z.add_nocarry_lxor by (apply land_shiftl_low; assumption).
  now rewrite Z.shiftl_mul_pow2.
Qed.

Lemma lor_low_byte (y b : Z) :
  y mod 256 = 0 -> 0 <= b < 256 -> Z.lor y b = y + b.
Proof.
  intros Hy Hb.
  assert (E : y = Z.shiftl (y / 256) 8).
  { rewrite Z.shiftl_mul_pow2 by lia. change (2 ^ 8) with 256.
    pose proof (Z.div_mod y 256). lia. }
  rewrite E at 1. rewrite lor_shiftl_low by (change (2 ^ 8) with 256; lia).
  change (2 ^ 8) with 256. pose proof (Z.div_mod y 256). lia.
Qed.

Lemma shift_in_eq (tag : Z) (c : ascii) :
  shift_in tag c = (tag * 256) mod uint32_mod + uchar c.
Proof.
  unfold shift_in, wrap32. rewrite Z.shiftl_mul_pow2 by lia.
  change (2 ^ 8) with 256. apply lor_low_byte; [|apply uchar_range].
  unfold uint32_mod.
  rewrite Z.mod_mod_divide by (exists (2 ^ 24); reflexivity).
  apply Z.mod_mul. lia.
Qed.

(** ** Properties of FindMutualQuicTag *)

Lemma inner_loop_none (t : QuicTag) (their : list QuicTag) :
  forall j m, inner_loop t their j m = None <-> ~ In t their.
Proof.
  induction their as [|x rest IH]; intros j m; simpl.
  - split; auto.
  - destruct (Z.eqb_spec t x) as [->|Hne].
    + split; [discriminate | intros H; exfalso; apply H; now left].
    + rewrite IH. split.
      * intros H [Hx|Hin]; [congruence | auto].
      * intros H Hin. apply H. now right.
Qed.

Lemma inner_loop_some (t : QuicTag) (their : list QuicTag) :
  forall j m m', inner_loop t their j m = Some m' ->
    exists k, nth_error their k = Some t /\
              (forall k', (k' < k)%nat -> nth_error their k' <> Some t) /\
              m' = store_match m t (j + k).
Proof.
  induction their as [|x rest IH]; intros j m m'; simpl; [discriminate|].
  destruct (Z.eqb_spec t x) as [->|Hne].
  - intros [= <-]. exists 0%nat. rewrite Nat.add_0_r.
    repeat split; auto. intros k' Hk'. lia.
  - intros H. destruct (IH _ _ _ H) as (k & Hk & Hmin & ->).
    exists (S k). simpl. split; [exact Hk|]. split.
    + intros [|k'] Hlt; simpl; [congruence | apply Hmin; lia].
    + f_equal. lia.
Qed.

Lemma outer_loop_false (our their : list QuicTag) (m : OutParams) :
  fst (outer_loop our their m) = false <->
  (forall t, In t our -> ~ In t their).
Proof.
  induction our as [|x rest IH]; simpl.
  - split; auto.
  - destruct (inner_loop x their 0 m) as [m'|] eqn:E; simpl.
    + split; [discriminate|]. intros H. exfalso.
      assert (Hn : inner_loop x their 0 m = None)
        by (apply inner_loop_none, H; now left).
      congruence.
    + rewrite IH. apply inner_loop_none in E. split.
      * intros H t [<-|Hin]; auto.
      * intros H t Hin. apply H. now right.
Qed.

Lemma outer_loop_true (our their : list QuicTag) (m : OutParams) :
  (exists t, In t our /\ In t their) ->
  exists i j t,
    nth_error our i = Some t /\ nth_error their j = Some t /\
    (forall i' t', (i' < i)%nat -> nth_error our i' = Some t' ->
                   ~ In t' their) /\
    (forall j', (j' < j)%nat -> nth_error their j' <> Some t) /\
    outer_loop our their m = (true, store_match m t j).
Proof.
  induction our as [|x rest IH]; simpl.
  - intros (t & [] & _).
  - intros (t & Hin & Hth).
    destruct (inner_loop x their 0 m) as [m'|] eqn:E.
    + destruct (inner_loop_some _ _ _ _ _ E) as (k & Hk & Hmin & ->).
      exists 0%nat, k, x. simpl. repeat split; auto. intros i' t' Hlt. lia.
    + apply inner_loop_none in E.
      destruct IH as (i & j & u & Hi & Hj & Hpre & Hmin & Hres).
      { exists t. split; auto. destruct Hin as [<-|Hin]; [contradiction|auto]. }
      exists (S i), j, u. simpl. repeat split; auto.
      intros [|i'] t' Hlt; simpl.
      * intros [= <-]. exact E.
      * apply Hpre. lia.
Qed.

(** C1: [FindMutualQuicTag] returns false exactly when the two lists share
    no tag; when they share one, it returns true with [our_tags[i]] for the
    least local index [i] whose tag occurs in the peer list, and stores the
    least peer index [j] holding that tag; on [[A; B]] against [[B; A]] with
    [A <> B] the result is [A] with peer index 1. *)
Theorem FindMutualQuicTag_first_local_match :
  forall (our their : list QuicTag) (m : OutParams),
    (fst (FindMutualQuicTag our their m) = false <->
     (forall t, In t our -> ~ In t their)) /\
    ((exists t, In t our /\ In t their) ->
     exists i j t,
       nth_error our i = Some t /\ nth_error their j = Some t /\
       (forall i' t', (i' < i)%nat -> nth_error our i' = Some t' ->
                      ~ In t' their) /\
       (forall j', (j' < j)%nat -> nth_error their j' <> Some t) /\
       fst (FindMutualQuicTag our their m) = true /\
       out_result (snd (FindMutualQuicTag our their m)) = t /\
       (out_index m <> None ->
        out_index (snd (FindMutualQuicTag our their m)) = Some j)) /\
    (forall A B : QuicTag, A <> B ->
       fst (FindMutualQuicTag [A; B] [B; A] m) = true /\
       out_result (snd (FindMutualQuicTag [A; B] [B; A] m)) = A /\
       (out_index m <> None ->
        out_index (snd (FindMutualQuicTag [A; B] [B; A] m)) = Some 1%nat)).
Proof.
  intros our their m. unfold FindMutualQuicTag. repeat split.
  - apply outer_loop_false.
  - apply outer_loop_false.
  - intros Hex.
    destruct (outer_loop_true our their m Hex)
      as (i & j & t & Hi & Hj & Hpre & Hmin & Hres).
    exists i, j, t. rewrite Hres. simpl. repeat split; auto.
    destruct (out_index m); congruence.
  - simpl. destruct (Z.eqb_spec A B); [contradiction|].
    now rewrite Z.eqb_refl.
  - simpl. destruct (Z.eqb_spec A B); [contradiction|].
    now rewrite Z.eqb_refl.
  - simpl. destruct (Z.eqb_spec A B); [contradiction|].
    rewrite Z.eqb_refl. simpl. destruct (out_index m); congruence.
Qed.

Lemma FindMutualQuicTag_first_local_match_witness :
  fst (FindMutualQuicTag [65; 66] [66; 65]
         {| out_result := 0; out_index := Some 0%nat |}) = true /\
  out_result (snd (FindMutualQuicTag [65; 66] [66; 65]
         {| out_result := 0; out_index := Some 0%nat |})) = 65 /\
  (out_index {| out_result := 0; out_index := Some 0%nat |} <> None ->
   out_index (snd (FindMutualQuicTag [65; 66] [66; 65]
         {| out_result := 0; out_index := Some 0%nat |})) = Some 1%nat).
Proof.
  apply (proj2 (proj2 (FindMutualQuicTag_first_local_match
                         [65; 66] [66; 65]
                         {| out_result := 0; out_index := Some 0%nat |}))).
  lia.
Defined.

Lemma inner_loop_null_index (t : QuicTag) (their : list QuicTag) :
  forall j m m', inner_loop t their j m = Some m' ->
                 out_index m = None -> out_index m' = None.
Proof.
  intros j m m' H Hnull.
  destruct (inner_loop_some _ _ _ _ _ H) as (k & _ & _ & ->).
  simpl. now rewrite Hnull.
Qed.

(** C10: when [FindMutualQuicTag] returns false, neither output cell has
    been written: both hold what they held before the call; and a null
    [out_index] is never written, whatever the result. *)
Theorem FindMutualQuicTag_frame :
  forall (our their : list QuicTag) (m : OutParams),
    (fst (FindMutualQuicTag our their m) = false ->
     snd (FindMutualQuicTag our their m) = m) /\
    (out_index m = None ->
     out_index (snd (FindMutualQuicTag our their m)) = None).
Proof.
  intros our their m. unfold FindMutualQuicTag.
  induction our as [|x rest [IH1 IH2]]; simpl; [auto|].
  destruct (inner_loop x their 0 m) as [m'|] eqn:E; simpl.
  - split; [discriminate|]. now apply (inner_loop_null_index _ _ _ _ _ E).
  - auto.
Qed.

Lemma FindMutualQuicTag_frame_witness :
  snd (FindMutualQuicTag [88] [89]
         {| out_result := 7; out_index := Some 5%nat |})
  = {| out_result := 7; out_index := Some 5%nat |}.
Proof.
  apply (proj1 (FindMutualQuicTag_frame [88] [89]
                  {| out_result := 7; out_index := Some 5%nat |})).
  reflexivity.
Defined.

(** ** Properties of MakeQuicTag *)

Lemma char_to_uint32_plain (p : Platform) (c : ascii) :
  plain_char p c -> char_to_uint32 p c = uchar c.
Proof.
  unfold plain_char, char_to_uint32. intros [->|H]; [reflexivity|].
  destruct (Z.leb_spec 128 (uchar c)); [lia|].
  now rewrite andb_false_r.
Qed.

Lemma lor_high (lo x k : Z) :
  0 <= k -> 0 <= lo < 2 ^ k -> Z.lor lo (Z.shiftl x k) = lo + x * 2 ^ k.
Proof.
  intros Hk Hlo. rewrite Z.lor_comm, lor_shiftl_low by assumption. lia.
Qed.

Lemma wrap32_shiftl_small (x k : Z) :
  0 <= k -> 0 <= x * 2 ^ k < uint32_mod -> wrap32 (Z.shiftl x k) = Z.shiftl x k.
Proof.
  intros Hk Hx. unfold wrap32. rewrite Z.shiftl_mul_pow2 by assumption.
  now apply Z.mod_small.
Qed.

Lemma MakeQuicTag_sum (p : Platform) (a b c d : ascii) :
  plain_char p a -> plain_char p b -> plain_char p c -> plain_char p d ->
  MakeQuicTag p a b c d
  = uchar a + 256 * uchar b + 65536 * uchar c + 16777216 * uchar d.
Proof.
  intros Ha Hb Hc Hd. unfold MakeQuicTag.
  rewrite !char_to_uint32_plain by assumption.
  pose proof (uchar_range a). pose proof (uchar_range b).
  pose proof (uchar_range c). pose proof (uchar_range d).
  rewrite !wrap32_shiftl_small by (unfold uint32_mod; pow2_consts; lia).
  rewrite (lor_high _ _ 8) by (pow2_consts; lia).
  rewrite (lor_high _ _ 16) by (pow2_consts; lia).
  rewrite (lor_high _ _ 24) by (pow2_consts; lia).
  pow2_consts. lia.
Qed.

Lemma tag_byte_sum (b0 b1 b2 b3 : Z) :
  0 <= b0 < 256 -> 0 <= b1 < 256 -> 0 <= b2 < 256 -> 0 <= b3 < 256 ->
  let t := b0 + 256 * b1 + 65536 * b2 + 16777216 * b3 in
  tag_byte t 0 = b0 /\ tag_byte t 1 = b1 /\
  tag_byte t 2 = b2 /\ tag_byte t 3 = b3.
Proof.
  intros H0 H1 H2 H3 t. unfold tag_byte.
  rewrite !Z.shiftr_div_pow2 by lia. simpl Z.mul.
  pow2_consts. subst t. repeat split.
  - rewrite Z.div_1_r. symmetry.
    apply (Z.mod_unique_pos _ _ (b1 + 256 * b2 + 65536 * b3)); lia.
  - replace ((b0 + 256 * b1 + 65536 * b2 + 16777216 * b3) / 256)
      with (b1 + 256 * b2 + 65536 * b3)
      by (apply (Z.div_unique_pos _ _ _ b0); lia).
    symmetry. apply (Z.mod_unique_pos _ _ (b2 + 256 * b3)); lia.
  - replace ((b0 + 256 * b1 + 65536 * b2 + 16777216 * b3) / 65536)
      with (b2 + 256 * b3)
      by (apply (Z.div_unique_pos _ _ _ (b0 + 256 * b1)); lia).
    symmetry. apply (Z.mod_unique_pos _ _ b3); lia.
  - replace ((b0 + 256 * b1 + 65536 * b2 + 16777216 * b3) / 16777216)
      with b3
      by (apply (Z.div_unique_pos _ _ _ (b0 + 256 * b1 + 65536 * b2)); lia).
    apply Z.mod_small; lia.
Qed.

(** [MakeQuicTag] packs its arguments least-significant byte first when
    every argument converts to its byte value. *)
Lemma MakeQuicTag_bytes_plain (p : Platform) (a b c d : ascii) :
  plain_char p a -> plain_char p b -> plain_char p c -> plain_char p d ->
  raw_bytes (MakeQuicTag p a b c d) = [uchar a; uchar b; uchar c; uchar d].
Proof.
  intros Ha Hb Hc Hd. rewrite MakeQuicTag_sum by assumption.
  unfold raw_bytes.
  destruct (tag_byte_sum (uchar a) (uchar b) (uchar c) (uchar d))
    as (E0 & E1 & E2 & E3); try apply uchar_range.
  cbv zeta in E0, E1, E2, E3. now rewrite E0, E1, E2, E3.
Qed.

(** C2: where plain [char] is signed, [MakeQuicTag] sign-extends an
    argument of 0x80 or more: for the bytes 0x80, 0, 0, 0 it yields
    0xffffff80, whose bytes 1 to 3 are 0xff and not the arguments. *)
Theorem MakeQuicTag_signed_char_sign_extends :
  MakeQuicTag signed_le (to_char 128) (to_char 0) (to_char 0) (to_char 0)
  = 4294967168 /\
  raw_bytes (MakeQuicTag signed_le (to_char 128) (to_char 0) (to_char 0)
                         (to_char 0))
  = [128; 255; 255; 255] /\
  map uchar [to_char 128; to_char 0; to_char 0; to_char 0] = [128; 0; 0; 0].
Proof.
  repeat split.
Qed.

(** ** Properties of QuicTagToString *)

Lemma uchar_stored_char (i x : Z) :
  uchar (stored_char i x)
  = if i =? 3 then high_byte_shown (x mod 256) else x mod 256.
Proof.
  unfold stored_char, high_byte_shown. rewrite !to_char_eqb.
  change (0 mod 256) with 0. change (255 mod 256) with 255.
  destruct (i =? 3).
  - rewrite andb_true_r.
    destruct ((x mod 256 =? 0) || (x mod 256 =? 255));
      [reflexivity | apply uchar_to_char].
  - rewrite andb_false_r. apply uchar_to_char.
Qed.

Lemma shown_bytes_stored (tag : Z) :
  map uchar [stored_char 0 tag;
             stored_char 1 (Z.shiftr tag 8);
             stored_char 2 (Z.shiftr (Z.shiftr tag 8) 8);
             stored_char 3 (Z.shiftr (Z.shiftr (Z.shiftr tag 8) 8) 8)]
  = shown_bytes tag.
Proof.
  unfold shown_bytes, tag_byte. cbn [map].
  rewrite !uchar_stored_char. rewrite !Z.shiftr_shiftr by lia.
  rewrite Z.shiftr_0_r. reflexivity.
Qed.

Lemma chars_loop_unfold (tag : Z) :
  let c0 := stored_char 0 tag in
  let c1 := stored_char 1 (Z.shiftr tag 8) in
  let c2 := stored_char 2 (Z.shiftr (Z.shiftr tag 8) 8) in
  let c3 := stored_char 3 (Z.shiftr (Z.shiftr (Z.shiftr tag 8) 8) 8) in
  chars_loop 4 0 tag []
  = if negb (isprint (uchar c0)) then (false, [c0])
    else if negb (isprint (uchar c1)) then (false, [c0; c1])
    else if negb (isprint (uchar c2)) then (false, [c0; c1; c2])
    else if negb (isprint (uchar c3)) then (false, [c0; c1; c2; c3])
    else (true, [c0; c1; c2; c3]).
Proof.
  reflexivity.
Qed.

Lemma chars_loop_printable (tag : Z) :
  forallb isprint (shown_bytes tag) = true ->
  chars_loop 4 0 tag [] = (true, map to_char (shown_bytes tag)).
Proof.
  intros H. rewrite chars_loop_unfold. cbv zeta.
  rewrite <- shown_bytes_stored in H |- *. cbn [map forallb] in H |- *.
  rewrite !to_char_uchar.
  apply andb_prop in H. destruct H as [H0 H].
  apply andb_prop in H. destruct H as [H1 H].
  apply andb_prop in H. destruct H as [H2 H].
  apply andb_prop in H. destruct H as [H3 _].
  now rewrite H0, H1, H2, H3.
Qed.

Lemma chars_loop_unprintable (tag : Z) :
  forallb isprint (shown_bytes tag) = false ->
  fst (chars_loop 4 0 tag []) = false.
Proof.
  intros H. rewrite chars_loop_unfold. cbv zeta.
  rewrite <- shown_bytes_stored in H. cbn [map forallb] in H.
  destruct (isprint (uchar (stored_char 0 tag))); [|reflexivity].
  destruct (isprint (uchar (stored_char 1 (Z.shiftr tag 8))));
    [|reflexivity].
  destruct (isprint (uchar (stored_char 2 (Z.shiftr (Z.shiftr tag 8) 8))));
    [|reflexivity].
  destruct (isprint (uchar (stored_char 3
              (Z.shiftr (Z.shiftr (Z.shiftr tag 8) 8) 8))));
    [discriminate | reflexivity].
Qed.

Lemma QuicTagToString_printable (p : Platform) (tag : Z) :
  tag <> 0 -> forallb isprint (shown_bytes tag) = true ->
  QuicTagToString p tag = map to_char (shown_bytes tag).
Proof.
  intros Hnz H. unfold QuicTagToString.
  destruct (Z.eqb_spec tag 0); [contradiction|].
  now rewrite chars_loop_printable.
Qed.

Lemma QuicTagToString_unprintable (p : Platform) (tag : Z) :
  tag <> 0 -> forallb isprint (shown_bytes tag) = false ->
  QuicTagToString p tag = HexEncode (object_bytes p tag).
Proof.
  intros Hnz H. unfold QuicTagToString.
  destruct (Z.eqb_spec tag 0); [contradiction|].
  apply chars_loop_unprintable in H.
  destruct (chars_loop 4 0 tag []) as [a chars]. simpl in H. now subst a.
Qed.

Lemma hex_digits_lower (c : ascii) :
  is_lower_hex (hex_digit (uchar c / 16)) = true /\
  is_lower_hex (hex_digit (uchar c mod 16)) = true.
Proof.
  destruct c as [[] [] [] [] [] [] [] []]; split; reflexivity.
Qed.

Lemma HexEncode_lower (bytes : cstring) :
  forallb is_lower_hex (HexEncode bytes) = true.
Proof.
  induction bytes as [|c rest IH]; [reflexivity|].
  unfold HexEncode in *. cbn [flat_map app forallb].
  destruct (hex_digits_lower c) as [-> ->]. exact IH.
Qed.

Lemma HexEncode_length (bytes : cstring) :
  length (HexEncode bytes) = (2 * length bytes)%nat.
Proof.
  induction bytes as [|c rest IH]; [reflexivity|].
  unfold HexEncode in *. cbn [flat_map app length]. rewrite IH. lia.
Qed.

Lemma object_bytes_raw (p : Platform) (tag : Z) :
  map uchar (object_bytes p tag)
  = if little_endian p then raw_bytes tag else rev (raw_bytes tag).
Proof.
  unfold object_bytes, raw_bytes, tag_byte.
  destruct (little_endian p); cbn [rev app map];
    rewrite !uchar_to_char, Z.shiftr_0_r; reflexivity.
Qed.

Lemma object_bytes_length (p : Platform) (tag : Z) :
  length (object_bytes p tag) = 4%nat.
Proof.
  unfold object_bytes. destruct (little_endian p); reflexivity.
Qed.

Lemma byte_one_unprintable (tag i : Z) :
  0 <= i < 4 -> tag_byte tag i = 1 ->
  tag <> 0 /\ forallb isprint (shown_bytes tag) = false.
Proof.
  intros Hi H1. split.
  - intros ->. unfold tag_byte in H1. rewrite Z.shiftr_0_l in H1.
    discriminate.
  - unfold shown_bytes. cbn [forallb].
    assert (Hc : i = 0 \/ i = 1 \/ i = 2 \/ i = 3) by lia.
    destruct Hc as [ -> | [ -> | [ -> | -> ] ] ]; rewrite H1; cbn;
      rewrite ?andb_false_r; reflexivity.
Qed.

(** C6: [QuicTagToString] gives "0" for tag 0; for any other tag it takes
    the four bytes low to high, with a most significant byte of 0x00 or
    0xff shown as a space; when all four are printable the result is those
    four characters in that order; otherwise it is the hex encoding of the
    tag's four raw bytes, eight lowercase hex characters. The tag made of
    'A','B','C','D' is shown as "ABCD"; a tag with a byte 0x01 is shown as
    eight lowercase hex characters. *)
Theorem QuicTagToString_cases :
  forall (p : Platform) (tag : QuicTag),
    (tag = 0 -> QuicTagToString p tag = lit "0") /\
    (tag <> 0 -> forallb isprint (shown_bytes tag) = true ->
     QuicTagToString p tag = map to_char (shown_bytes tag)) /\
    (tag <> 0 -> forallb isprint (shown_bytes tag) = false ->
     QuicTagToString p tag = HexEncode (object_bytes p tag) /\
     map uchar (object_bytes p tag)
     = (if little_endian p then raw_bytes tag else rev (raw_bytes tag)) /\
     length (QuicTagToString p tag) = 8%nat /\
     forallb is_lower_hex (QuicTagToString p tag) = true) /\
    QuicTagToString p (MakeQuicTag p "A" "B" "C" "D") = lit "ABCD" /\
    (forall i, 0 <= i < 4 -> tag_byte tag i = 1 ->
     length (QuicTagToString p tag) = 8%nat /\
     forallb is_lower_hex (QuicTagToString p tag) = true).
Proof.
  intros p tag.
  assert (Hhex : tag <> 0 -> forallb isprint (shown_bytes tag) = false ->
                 QuicTagToString p tag = HexEncode (object_bytes p tag) /\
                 length (QuicTagToString p tag) = 8%nat /\
                 forallb is_lower_hex (QuicTagToString p tag) = true).
  { intros Hnz H. rewrite QuicTagToString_unprintable by assumption.
    rewrite HexEncode_length, object_bytes_length, HexEncode_lower.
    auto. }
  split; [intros ->; reflexivity|].
  split; [apply QuicTagToString_printable|].
  split.
  { intros Hnz H. destruct (Hhex Hnz H) as (E & L & X).
    repeat split; auto. apply object_bytes_raw. }
  split.
  { destruct p as [[] le]; reflexivity. }
  intros i Hi H1. destruct (byte_one_unprintable tag i Hi H1) as [Hnz H].
  destruct (Hhex Hnz H) as (_ & L & X). auto.
Qed.

Lemma QuicTagToString_cases_witness :
  QuicTagToString signed_le 1 = HexEncode (object_bytes signed_le 1) /\
  map uchar (object_bytes signed_le 1)
  = (if little_endian signed_le then raw_bytes 1 else rev (raw_bytes 1)) /\
  length (QuicTagToString signed_le 1) = 8%nat /\
  forallb is_lower_hex (QuicTagToString signed_le 1) = true.
Proof.
  apply (proj1 (proj2 (proj2 (QuicTagToString_cases signed_le 1))));
    [discriminate | reflexivity].
Defined.

(** ** Properties of ParseQuicTag and ParseQuicTagVector *)

Lemma drop_space_all (s : cstring) :
  forallb is_space s = true -> drop_space s = [].
Proof.
  induction s as [|c rest IH]; cbn [forallb drop_space]; [reflexivity|].
  intros H. apply andb_prop in H. destruct H as [-> H]. auto.
Qed.

Lemma trim_all_space (s : cstring) :
  forallb is_space s = true -> RemoveLeadingAndTrailingWhitespace s = [].
Proof.
  intros H. unfold RemoveLeadingAndTrailingWhitespace.
  rewrite (drop_space_all s H). reflexivity.
Qed.

Lemma trim_four (a b c d : ascii) :
  is_space a = false -> is_space d = false ->
  RemoveLeadingAndTrailingWhitespace [a; b; c; d] = [a; b; c; d].
Proof.
  intros Ha Hd. unfold RemoveLeadingAndTrailingWhitespace.
  cbn [drop_space]. rewrite Ha. cbn [rev app drop_space]. rewrite Hd.
  reflexivity.
Qed.

Lemma ParseQuicTag_four (HexDecode : cstring -> cstring) (a b c d : ascii) :
  is_space a = false -> is_space d = false ->
  ParseQuicTag HexDecode [a; b; c; d]
  = uchar a + 256 * uchar b + 65536 * uchar c + 16777216 * uchar d.
Proof.
  intros Ha Hd. unfold ParseQuicTag. rewrite trim_four by assumption.
  cbn [length Nat.eqb rev app fold_left]. rewrite !shift_in_eq.
  pose proof (uchar_range a). pose proof (uchar_range b).
  pose proof (uchar_range c). pose proof (uchar_range d).
  unfold uint32_mod. change (2 ^ 32) with 4294967296.
  change (0 * 256) with 0. rewrite Z.mod_0_l, Z.add_0_l by lia.
  rewrite (Z.mod_small (uchar d * 256)) by lia.
  rewrite (Z.mod_small ((uchar d * 256 + uchar c) * 256)) by lia.
  rewrite (Z.mod_small (((uchar d * 256 + uchar c) * 256 + uchar b) * 256))
    by lia.
  lia.
Qed.

Lemma tag_decompose (t : Z) :
  is_uint32 t ->
  t = tag_byte t 0 + 256 * tag_byte t 1 + 65536 * tag_byte t 2
      + 16777216 * tag_byte t 3.
Proof.
  unfold is_uint32, uint32_mod, tag_byte. intros H.
  rewrite !Z.shiftr_div_pow2 by lia.
  change (8 * 0) with 0. change (8 * 1) with 8.
  change (8 * 2) with 16. change (8 * 3) with 24.
  pow2_consts. rewrite Z.div_1_r.
  pose proof (Z.div_mod t 256 ltac:(lia)) as E0.
  pose proof (Z.mod_pos_bound t 256 ltac:(lia)).
  assert (E1 : t / 65536 = t / 256 / 256)
    by (rewrite Z.div_div by lia; reflexivity).
  assert (E2 : t / 16777216 = t / 65536 / 256)
    by (rewrite Z.div_div by lia; reflexivity).
  pose proof (Z.div_mod (t / 256) 256 ltac:(lia)) as E3.
  pose proof (Z.div_mod (t / 65536) 256 ltac:(lia)) as E4.
  assert (Hsmall : 0 <= t / 16777216 < 256).
  { split; [apply Z.div_pos; lia|].
    apply Z.div_lt_upper_bound; lia. }
  rewrite (Z.mod_small (t / 16777216)) by assumption.
  rewrite <- E1 in E3. rewrite <- E2 in E4. lia.
Qed.

Lemma shift_in_bound (v : Z) (c : ascii) :
  0 <= v -> 0 <= shift_in v c <= 256 * v + 255.
Proof.
  intros Hv. rewrite shift_in_eq. pose proof (uchar_range c).
  unfold uint32_mod.
  pose proof (Z.mod_pos_bound (v * 256) (2 ^ 32) ltac:(lia)).
  pose proof (Z.mod_le (v * 256) (2 ^ 32) ltac:(lia) ltac:(lia)). lia.
Qed.

Lemma shift_in_uint32 (v : Z) (c : ascii) : is_uint32 (shift_in v c).
Proof.
  rewrite shift_in_eq. pose proof (uchar_range c).
  unfold is_uint32, uint32_mod.
  set (y := (v * 256) mod 2 ^ 32).
  assert (Hy : 0 <= y < 2 ^ 32) by (apply Z.mod_pos_bound; lia).
  assert (Hm : y mod 256 = 0).
  { unfold y. rewrite Z.mod_mod_divide by (exists (2 ^ 24); reflexivity).
    apply Z.mod_mul. lia. }
  pose proof (Z.div_mod y 256 ltac:(lia)) as E. rewrite Hm in E.
  change (2 ^ 32) with (256 * 16777216) in *.
  assert (y / 256 < 16777216) by (apply Z.div_lt_upper_bound; lia).
  lia.
Qed.

Lemma fold_shift_in_bound (l : cstring) :
  forall v, 0 <= v ->
    0 <= fold_left shift_in l v < (v + 1) * 256 ^ Z.of_nat (length l).
Proof.
  induction l as [|c rest IH]; intros v Hv.
  - cbn [fold_left length]. change (256 ^ Z.of_nat 0) with 1. lia.
  - cbn [fold_left length]. pose proof (shift_in_bound v c Hv) as Hs.
    destruct (IH (shift_in v c) ltac:(lia)) as [Hlo Hhi].
    split; [assumption|].
    rewrite Nat2Z.inj_succ, Z.pow_succ_r by lia.
    assert (Hp : 0 < 256 ^ Z.of_nat (length rest))
      by (apply Z.pow_pos_nonneg; lia).
    nia.
Qed.

Lemma fold_shift_in_uint32 (l : cstring) :
  forall v, is_uint32 v -> is_uint32 (fold_left shift_in l v).
Proof.
  induction l as [|c rest IH]; intros v Hv; cbn [fold_left]; [assumption|].
  apply IH, shift_in_uint32.
Qed.

Lemma Split_nonempty (s : cstring) (delim : ascii) : Split s delim <> [].
Proof.
  destruct s as [|c rest]; cbn [Split]; [discriminate|].
  destruct (Ascii.eqb c delim); [discriminate|].
  destruct (Split rest delim); discriminate.
Qed.

(** C7: [ParseQuicTag] and [ParseQuicTagVector] yield a value for every
    input, whatever the hex decoder returns: the tag is a 32-bit value; a
    trimmed input of fewer than 4 bytes leaves the bytes above it zero, and
    white space alone gives tag 0; the tag list is empty exactly when the
    trimmed input is empty, and otherwise holds one tag per piece of the
    trimmed input split at commas, each piece parsed by [ParseQuicTag]. *)
Theorem ParseQuicTag_total :
  forall (HexDecode : cstring -> cstring) (s : cstring),
    is_uint32 (ParseQuicTag HexDecode s) /\
    ((length (RemoveLeadingAndTrailingWhitespace s) < 4)%nat ->
     0 <= ParseQuicTag HexDecode s
       < 256 ^ Z.of_nat (length (RemoveLeadingAndTrailingWhitespace s))) /\
    (forallb is_space s = true -> ParseQuicTag HexDecode s = 0) /\
    (ParseQuicTagVector HexDecode s = [] <->
     RemoveLeadingAndTrailingWhitespace s = []) /\
    (RemoveLeadingAndTrailingWhitespace s <> [] ->
     ParseQuicTagVector HexDecode s
     = map (ParseQuicTag HexDecode)
           (Split (RemoveLeadingAndTrailingWhitespace s) ","%char) /\
     length (ParseQuicTagVector HexDecode s)
     = length (Split (RemoveLeadingAndTrailingWhitespace s) ","%char)).
Proof.
  intros HexDecode s. repeat split.
  - apply fold_shift_in_uint32. unfold is_uint32, uint32_mod. lia.
  - apply fold_shift_in_uint32. unfold is_uint32, uint32_mod. lia.
  - unfold ParseQuicTag.
    destruct (Nat.eqb_spec (length (RemoveLeadingAndTrailingWhitespace s)) 8);
      [lia|].
    apply fold_shift_in_bound. lia.
  - unfold ParseQuicTag.
    destruct (Nat.eqb_spec (length (RemoveLeadingAndTrailingWhitespace s)) 8);
      [lia|].
    pose proof (fold_shift_in_bound
                  (rev (RemoveLeadingAndTrailingWhitespace s)) 0 ltac:(lia))
      as Hb.
    rewrite length_rev in Hb. lia.
  - intros H. unfold ParseQuicTag. rewrite trim_all_space by assumption.
    reflexivity.
  - unfold ParseQuicTagVector.
    destruct (RemoveLeadingAndTrailingWhitespace s) as [|c rest] eqn:E;
      [reflexivity|].
    intros Hmap. apply map_eq_nil in Hmap.
    now apply Split_nonempty in Hmap.
  - unfold ParseQuicTagVector. now intros ->.
  - unfold ParseQuicTagVector.
    destruct (RemoveLeadingAndTrailingWhitespace s); [contradiction|].
    reflexivity.
  - unfold ParseQuicTagVector.
    destruct (RemoveLeadingAndTrailingWhitespace s); [contradiction|].
    apply length_map.
Qed.

Lemma ParseQuicTag_total_witness :
  ParseQuicTagVector HexDecodeLenient (lit " QBIC,ABCD ")
  = map (ParseQuicTag HexDecodeLenient)
        (Split (RemoveLeadingAndTrailingWhitespace (lit " QBIC,ABCD "))
               ","%char) /\
  length (ParseQuicTagVector HexDecodeLenient (lit " QBIC,ABCD "))
  = length (Split (RemoveLeadingAndTrailingWhitespace (lit " QBIC,ABCD "))
                  ","%char).
Proof.
  apply (proj2 (proj2 (proj2 (proj2
           (ParseQuicTag_total HexDecodeLenient (lit " QBIC,ABCD ")))))).
  discriminate.
Defined.

(** On characters that convert to their byte value, and with no white
    space at either end, parsing four characters packs them as
    [MakeQuicTag] does. *)
Lemma ParseQuicTag_MakeQuicTag_plain
      (HexDecode : cstring -> cstring) (p : Platform) (a b c d : ascii) :
  plain_char p a -> plain_char p b -> plain_char p c -> plain_char p d ->
  is_space a = false -> is_space d = false ->
  ParseQuicTag HexDecode [a; b; c; d] = MakeQuicTag p a b c d.
Proof.
  intros Ha Hb Hc Hd Sa Sd.
  rewrite ParseQuicTag_four by assumption.
  now rewrite MakeQuicTag_sum.
Qed.

(** C5: where plain [char] is signed, the four characters 0x80,'A','A','A'
    (a string that trimming leaves as it is) parse to 0x41414180, while
    [MakeQuicTag] on the same four characters yields 0xffffff80. *)
Theorem ParseQuicTag_MakeQuicTag_signed_char :
  forall HexDecode : cstring -> cstring,
    RemoveLeadingAndTrailingWhitespace [to_char 128; "A"; "A"; "A"]%char
    = [to_char 128; "A"; "A"; "A"]%char /\
    ParseQuicTag HexDecode [to_char 128; "A"; "A"; "A"]%char = 1094795648 /\
    MakeQuicTag signed_le (to_char 128) "A" "A" "A" = 4294967168.
Proof.
  intros HexDecode. repeat split.
Qed.

(** ** Display and parse *)

Lemma isprint_range (b : Z) : isprint b = true -> 32 <= b <= 126.
Proof.
  unfold isprint. intros H. apply andb_prop in H. lia.
Qed.

Lemma tag_byte_range (t i : Z) : 0 <= tag_byte t i < 256.
Proof.
  unfold tag_byte. apply Z.mod_pos_bound. lia.
Qed.

Lemma printable_not_space (b : Z) :
  isprint b = true -> b <> 32 -> is_space (to_char b) = false.
Proof.
  intros Hp Hne. apply isprint_range in Hp.
  unfold is_space. rewrite uchar_to_char, Z.mod_small by lia.
  destruct (Z.leb_spec b 13); [lia|]. rewrite andb_false_r.
  apply Z.eqb_neq. assumption.
Qed.

(** C4: for every tag whose four bytes are printable ASCII and whose least
    and most significant bytes are not the space character, parsing the
    text [QuicTagToString] gives for the tag yields the tag again. *)
Theorem ParseQuicTag_QuicTagToString_roundtrip :
  forall (HexDecode : cstring -> cstring) (p : Platform) (t : QuicTag),
    is_uint32 t ->
    forallb isprint (raw_bytes t) = true ->
    tag_byte t 0 <> 32 -> tag_byte t 3 <> 32 ->
    ParseQuicTag HexDecode (QuicTagToString p t) = t.
Proof.
  intros HexDecode p t Ht Hp H0 H3.
  unfold raw_bytes in Hp. cbn [forallb] in Hp.
  apply andb_prop in Hp. destruct Hp as [P0 Hp].
  apply andb_prop in Hp. destruct Hp as [P1 Hp].
  apply andb_prop in Hp. destruct Hp as [P2 Hp].
  apply andb_prop in Hp. destruct Hp as [P3 _].
  assert (Hnz : t <> 0).
  { intros ->. discriminate P0. }
  assert (Hshown : shown_bytes t = raw_bytes t).
  { unfold shown_bytes, raw_bytes, high_byte_shown.
    pose proof (isprint_range _ P3).
    destruct (Z.eqb_spec (tag_byte t 3) 0); [lia|].
    destruct (Z.eqb_spec (tag_byte t 3) 255); [lia|]. reflexivity. }
  rewrite QuicTagToString_printable.
  - rewrite Hshown. unfold raw_bytes. cbn [map].
    rewrite ParseQuicTag_four by (apply printable_not_space; assumption).
    rewrite !uchar_to_char.
    rewrite !Z.mod_small by apply tag_byte_range.
    symmetry. now apply tag_decompose.
  - assumption.
  - rewrite Hshown. unfold raw_bytes. cbn [forallb].
    now rewrite P0, P1, P2, P3.
Qed.

Lemma ParseQuicTag_QuicTagToString_roundtrip_witness :
  ParseQuicTag HexDecodeLenient (QuicTagToString signed_le 1128874577)
  = 1128874577.
Proof.
  apply (ParseQuicTag_QuicTagToString_roundtrip
           HexDecodeLenient signed_le 1128874577).
  - unfold is_uint32, uint32_mod. lia.
  - reflexivity.
  - vm_compute. discriminate.
  - vm_compute. discriminate.
Defined.

(** The tag with bytes ' ','A','B','C' has four printable bytes, is shown
    as " ABC", and that text parses to the tag of "ABC", another tag; so
    does the text "ABC " of the tag with bytes 'A','B','C',' '. *)
Lemma roundtrip_space_counterexample :
  is_uint32 space_first_tag /\
  forallb isprint (raw_bytes space_first_tag) = true /\
  QuicTagToString signed_le space_first_tag = lit " ABC" /\
  ParseQuicTag HexDecodeLenient (QuicTagToString signed_le space_first_tag)
  = 4407873 /\
  ParseQuicTag HexDecodeLenient (QuicTagToString signed_le space_first_tag)
  <> space_first_tag /\
  is_uint32 space_last_tag /\
  forallb isprint (raw_bytes space_last_tag) = true /\
  QuicTagToString signed_le space_last_tag = lit "ABC " /\
  ParseQuicTag HexDecodeLenient (QuicTagToString signed_le space_last_tag)
  <> space_last_tag.
Proof.
  repeat split; try discriminate.
Qed.

(** ** Properties of the QBONE session *)

Import Qbone.

(** C3: [SendPacketToPeer] is declared [void]: when neither the datagram
    primitive nor a fallback stream is available, nothing is sent, and the
    call returns to its caller the same (empty) result as a call that sent
    the payload. *)
Theorem SendPacketToPeer_failure_not_returned :
  forall (count_failed : bool) (packet : cstring) (s : QboneSessionBase),
    sent_datagrams (snd (SendPacketToPeer count_failed transport_down
                                          packet s))
    = sent_datagrams s /\
    opened_streams (snd (SendPacketToPeer count_failed transport_down
                                          packet s))
    = opened_streams s /\
    sent_datagrams (snd (SendPacketToPeer count_failed transport_up
                                          packet s))
    = packet :: sent_datagrams s /\
    fst (SendPacketToPeer count_failed transport_down packet s)
    = fst (SendPacketToPeer count_failed transport_up packet s).
Proof.
  intros [] packet s; repeat split.
Qed.

(** C8: in one call to [SendPacketToPeer], when the datagram primitive
    reports unsupported or over capacity and a stream can be created,
    exactly one fallback stream is opened, carrying this payload and
    closed, and the fallback counter grows by exactly 1; when the datagram
    is sent, no stream is opened and the counter is unchanged; in no case
    does the counter grow by more than 1. *)
Theorem SendPacketToPeer_fallback_counted_once :
  forall (count_failed : bool) (tr : Transport) (packet : cstring)
         (s : QboneSessionBase),
    0 <= num_fallback_to_stream_ s < uint64_mod - 1 ->
    (trySendDatagram tr packet <> DatagramSent ->
     openOutgoingStream tr = true ->
     opened_streams (snd (SendPacketToPeer count_failed tr packet s))
     = {| stream_data := packet; stream_fin := true |} :: opened_streams s /\
     sent_datagrams (snd (SendPacketToPeer count_failed tr packet s))
     = sent_datagrams s /\
     num_fallback_to_stream_ (snd (SendPacketToPeer count_failed tr packet s))
     = num_fallback_to_stream_ s + 1) /\
    (trySendDatagram tr packet = DatagramSent ->
     opened_streams (snd (SendPacketToPeer count_failed tr packet s))
     = opened_streams s /\
     sent_datagrams (snd (SendPacketToPeer count_failed tr packet s))
     = packet :: sent_datagrams s /\
     num_fallback_to_stream_ (snd (SendPacketToPeer count_failed tr packet s))
     = num_fallback_to_stream_ s) /\
    num_fallback_to_stream_ s
    <= num_fallback_to_stream_ (snd (SendPacketToPeer count_failed tr packet s))
    <= num_fallback_to_stream_ s + 1.
Proof.
  intros cf tr packet s Hc.
  assert (Hw : wrap64 (num_fallback_to_stream_ s + 1)
               = num_fallback_to_stream_ s + 1)
    by (unfold wrap64; apply Z.mod_small; lia).
  unfold SendPacketToPeer.
  destruct (trySendDatagram tr packet); destruct (openOutgoingStream tr);
    destruct cf; cbn [snd with_datagram with_stream count_fallback
                      opened_streams sent_datagrams num_fallback_to_stream_];
    rewrite ?Hw; repeat split; intros; try congruence; try lia.
Qed.

Lemma SendPacketToPeer_fallback_counted_once_witness :
  opened_streams (snd (SendPacketToPeer false transport_streams_only
                                        (lit "PING") idle_session))
  = {| stream_data := lit "PING"; stream_fin := true |}
      :: opened_streams idle_session /\
  sent_datagrams (snd (SendPacketToPeer false transport_streams_only
                                        (lit "PING") idle_session))
  = sent_datagrams idle_session /\
  num_fallback_to_stream_ (snd (SendPacketToPeer false transport_streams_only
                                                 (lit "PING") idle_session))
  = num_fallback_to_stream_ idle_session + 1.
Proof.
  assert (Hc : 0 <= num_fallback_to_stream_ idle_session < uint64_mod - 1)
    by (unfold uint64_mod; simpl; lia).
  apply (proj1 (SendPacketToPeer_fallback_counted_once
                  false transport_streams_only (lit "PING") idle_session Hc));
    [discriminate | reflexivity].
Defined.

(** With the datagram primitive unsupported and no stream to be had, the
    call opens no stream at all, whether or not the failed fallback is
    counted. *)
Lemma SendPacketToPeer_no_stream_counterexample :
  trySendDatagram transport_down (lit "PING") = DatagramUnsupported /\
  opened_streams (snd (SendPacketToPeer true transport_down (lit "PING")
                                        idle_session)) = [] /\
  opened_streams (snd (SendPacketToPeer false transport_down (lit "PING")
                                        idle_session)) = [] /\
  num_fallback_to_stream_ (snd (SendPacketToPeer false transport_down
                                                 (lit "PING") idle_session))
  <> num_fallback_to_stream_ idle_session + 1.
Proof.
  repeat split. discriminate.
Qed.

(** C9: [ShouldKeepConnectionAlive] answers true in every session state,
    and so with no open stream and nothing sent. *)
Theorem ShouldKeepConnectionAlive_always :
  (forall s : QboneSessionBase, ShouldKeepConnectionAlive s = true) /\
  ShouldKeepConnectionAlive idle_session = true.
Proof.
  split; reflexivity.
Qed.

(** ** ContainsQuicTag, and how FindMutualQuicTag relates to it *)

Lemma std_find_range (v : list QuicTag) (tag : QuicTag) :
  forall first,
    (first <= std_find v tag first <= first + length v)%nat.
Proof.
  induction v as [|x rest IH]; intros first; cbn [std_find length].
  - lia.
  - destruct (x =? tag); [lia|]. specialize (IH (S first)). lia.
Qed.

Lemma std_find_end (v : list QuicTag) (tag : QuicTag) :
  forall first,
    std_find v tag first = (first + length v)%nat <-> ~ In tag v.
Proof.
  induction v as [|x rest IH]; intros first; cbn [std_find length In].
  - split; [auto | lia].
  - destruct (Z.eqb_spec x tag) as [->|Hne].
    + split; [lia | intros H; exfalso; apply H; now left].
    + rewrite <- Nat.add_succ_comm, IH. split.
      * intros H [E|Hin]; [congruence | auto].
      * intros H Hin. apply H. now right.
Qed.

Lemma std_find_hit (v : list QuicTag) (tag : QuicTag) :
  forall first k,
    nth_error v k = Some tag ->
    (forall k', (k' < k)%nat -> nth_error v k' <> Some tag) ->
    std_find v tag first = (first + k)%nat.
Proof.
  induction v as [|x rest IH]; intros first k Hk Hmin.
  - destruct k; discriminate.
  - cbn [std_find]. destruct k as [|k].
    + cbn in Hk. injection Hk as ->. rewrite Z.eqb_refl. lia.
    + destruct (Z.eqb_spec x tag) as [->|Hne].
      * exfalso. apply (Hmin 0%nat); [lia | reflexivity].
      * rewrite (IH (S first) k); [lia | exact Hk |].
        intros k' Hlt. apply (Hmin (S k')). lia.
Qed.

Lemma ContainsQuicTag_iff (v : list QuicTag) (tag : QuicTag) :
  ContainsQuicTag v tag = true <-> In tag v.
Proof.
  unfold ContainsQuicTag. rewrite negb_true_iff, Nat.eqb_neq.
  pose proof (std_find_end v tag 0) as H. cbn [Nat.add] in H.
  rewrite H. split.
  - intros Hnn. destruct (in_dec Z.eq_dec tag v); [assumption|].
    contradiction.
  - auto.
Qed.

Lemma std_find_found (v : list QuicTag) (tag : QuicTag) :
  forall first,
    (std_find v tag first < first + length v)%nat ->
    nth_error v (std_find v tag first - first) = Some tag /\
    (forall k, (k < std_find v tag first - first)%nat ->
               nth_error v k <> Some tag).
Proof.
  induction v as [|x rest IH]; intros first; cbn [std_find length].
  - lia.
  - destruct (Z.eqb_spec x tag) as [->|Hne]; intros Hlt.
    + rewrite Nat.sub_diag. split; [reflexivity|]. intros k Hk. lia.
    + pose proof (std_find_range rest tag (S first)) as Hr.
      destruct (IH (S first) ltac:(lia)) as [Hnth Hmin].
      replace (std_find rest tag (S first) - first)%nat
        with (S (std_find rest tag (S first) - S first)) by lia.
      split; [exact Hnth|].
      intros [|k] Hk; cbn [nth_error]; [congruence | apply Hmin; lia].
Qed.

(** X1: [ContainsQuicTag] answers true exactly when the tag occurs in the
    vector, and then [std::find] stops at an index below the size that
    holds the tag, with no occurrence before it. *)
Theorem ContainsQuicTag_occurs :
  forall (v : list QuicTag) (tag : QuicTag),
    (ContainsQuicTag v tag = true <-> In tag v) /\
    (ContainsQuicTag v tag = true ->
     (std_find v tag 0 < length v)%nat /\
     nth_error v (std_find v tag 0) = Some tag /\
     (forall k, (k < std_find v tag 0)%nat -> nth_error v k <> Some tag)).
Proof.
  intros v tag. split; [apply ContainsQuicTag_iff|].
  unfold ContainsQuicTag. rewrite negb_true_iff, Nat.eqb_neq. intros Hne.
  pose proof (std_find_range v tag 0) as Hr. cbn [Nat.add] in Hr.
  assert (Hlt : (std_find v tag 0 < 0 + length v)%nat) by lia.
  destruct (std_find_found v tag 0 Hlt) as [Hnth Hmin].
  rewrite Nat.sub_0_r in Hnth, Hmin. repeat split; [lia | assumption..].
Qed.

Lemma ContainsQuicTag_occurs_witness :
  let v : list QuicTag := [81; 66; 73; 66] in
  let tag : QuicTag := 66 in
  (std_find v tag 0 < length v)%nat /\
  nth_error v (std_find v tag 0) = Some tag /\
  (forall k, (k < std_find v tag 0)%nat -> nth_error v k <> Some tag).
Proof.
  apply (proj2 (ContainsQuicTag_occurs [81; 66; 73; 66] 66)).
  reflexivity.
Defined.

Lemma inner_loop_result (t : QuicTag) (their : list QuicTag)
      (m m' : OutParams) :
  inner_loop t their 0 m = Some m' ->
  In t their /\ m' = store_match m t (std_find their t 0).
Proof.
  intros H.
  destruct (inner_loop_some _ _ _ _ _ H) as (k & Hk & Hmin & ->).
  split; [now apply nth_error_In with k|].
  now rewrite (std_find_hit their t 0 k Hk Hmin).
Qed.

(** X2: [FindMutualQuicTag] returns true exactly when [ContainsQuicTag]
    finds one of our tags in the peer vector; the tag it then stores is
    contained in both vectors, and the index it stores is the one
    [std::find] reaches for that tag in the peer vector. *)
Theorem FindMutualQuicTag_contains :
  forall (our their : list QuicTag) (m : OutParams),
    fst (FindMutualQuicTag our their m)
    = existsb (ContainsQuicTag their) our /\
    (fst (FindMutualQuicTag our their m) = true ->
     let t := out_result (snd (FindMutualQuicTag our their m)) in
     ContainsQuicTag our t = true /\ ContainsQuicTag their t = true /\
     (out_index m <> None ->
      out_index (snd (FindMutualQuicTag our their m))
      = Some (std_find their t 0))).
Proof.
  intros our their m. unfold FindMutualQuicTag.
  induction our as [|x rest [IH1 IH2]]; cbn [outer_loop existsb].
  - split; [reflexivity | discriminate].
  - destruct (inner_loop x their 0 m) as [m'|] eqn:E.
    + destruct (inner_loop_result _ _ _ _ E) as [Hin ->].
      assert (Hc : ContainsQuicTag their x = true)
        by now apply ContainsQuicTag_iff.
      rewrite Hc. cbn [fst snd orb store_match out_result out_index].
      split; [reflexivity|]. intros _. repeat split.
      * apply ContainsQuicTag_iff. now left.
      * exact Hc.
      * destruct (out_index m); congruence.
    + apply inner_loop_none in E.
      assert (Hc : ContainsQuicTag their x = false).
      { destruct (ContainsQuicTag their x) eqn:C; [|reflexivity].
        apply ContainsQuicTag_iff in C. contradiction. }
      rewrite Hc. cbn [orb]. split; [exact IH1|].
      intros Ht. destruct (IH2 Ht) as (A & B & C).
      repeat split; auto.
      apply ContainsQuicTag_iff. right. now apply ContainsQuicTag_iff.
Qed.

Lemma FindMutualQuicTag_contains_witness :
  let m := {| out_result := 0; out_index := Some 9%nat |} in
  let t := out_result (snd (FindMutualQuicTag [5; 6; 7] [7; 6] m)) in
  ContainsQuicTag [5; 6; 7] t = true /\ ContainsQuicTag [7; 6] t = true /\
  (out_index m <> None ->
   out_index (snd (FindMutualQuicTag [5; 6; 7] [7; 6] m))
   = Some (std_find [7; 6] t 0)).
Proof.
  apply (proj2 (FindMutualQuicTag_contains
                  [5; 6; 7] [7; 6]
                  {| out_result := 0; out_index := Some 9%nat |})).
  reflexivity.
Defined.

(** X3: whether a mutual tag is found does not depend on which side is
    ours: [FindMutualQuicTag] returns the same boolean with the two
    vectors exchanged, whatever the output cells hold. *)
Theorem FindMutualQuicTag_success_symmetric :
  forall (a b : list QuicTag) (m m' : OutParams),
    fst (FindMutualQuicTag a b m) = fst (FindMutualQuicTag b a m').
Proof.
  intros a b m m'. unfold FindMutualQuicTag.
  destruct (fst (outer_loop a b m)) eqn:Ea;
    destruct (fst (outer_loop b a m')) eqn:Eb; try reflexivity.
  - pose proof (proj1 (outer_loop_false b a m') Eb) as Hd.
    assert (Hf : fst (outer_loop a b m) = false).
    { apply outer_loop_false. intros t Ha Hb. exact (Hd t Hb Ha). }
    congruence.
  - pose proof (proj1 (outer_loop_false a b m) Ea) as Hd.
    assert (Hf : fst (outer_loop b a m') = false).
    { apply outer_loop_false. intros t Hb Ha. exact (Hd t Ha Hb). }
    congruence.
Qed.

Lemma inner_loop_same_members (t : QuicTag) (their their' : list QuicTag)
      (m : OutParams) :
  (In t their <-> In t their') ->
  match inner_loop t their 0 m, inner_loop t their' 0 m with
  | Some m1, Some m2 => out_result m1 = t /\ out_result m2 = t
  | None, None => True
  | _, _ => False
  end.
Proof.
  intros Hmem.
  destruct (inner_loop t their 0 m) as [m1|] eqn:E1;
    destruct (inner_loop t their' 0 m) as [m2|] eqn:E2.
  - destruct (inner_loop_result _ _ _ _ E1) as [_ ->].
    destruct (inner_loop_result _ _ _ _ E2) as [_ ->]. split; reflexivity.
  - apply inner_loop_none in E2. apply inner_loop_result in E1.
    apply E2, Hmem, E1.
  - apply inner_loop_none in E1. apply inner_loop_result in E2.
    apply E1, Hmem, E2.
  - exact I.
Qed.

(** X4: the order and multiplicity of the peer's tags do not influence the
    choice: for two peer vectors holding the same tags, [FindMutualQuicTag]
    returns the same boolean and stores the same tag. *)
Theorem FindMutualQuicTag_peer_order_irrelevant :
  forall (our their their' : list QuicTag) (m : OutParams),
    (forall t, In t their <-> In t their') ->
    fst (FindMutualQuicTag our their m)
    = fst (FindMutualQuicTag our their' m) /\
    out_result (snd (FindMutualQuicTag our their m))
    = out_result (snd (FindMutualQuicTag our their' m)).
Proof.
  intros our their their' m Hmem. unfold FindMutualQuicTag.
  induction our as [|x rest IH]; cbn [outer_loop]; [auto|].
  pose proof (inner_loop_same_members x their their' m (Hmem x)) as H.
  destruct (inner_loop x their 0 m) as [m1|];
    destruct (inner_loop x their' 0 m) as [m2|]; try contradiction.
  - destruct H as [H1 H2]. cbn [fst snd]. rewrite H1, H2. auto.
  - exact IH.
Qed.

Lemma FindMutualQuicTag_peer_order_irrelevant_witness :
  let m := {| out_result := 0; out_index := Some 0%nat |} in
  fst (FindMutualQuicTag [1; 2; 3] [3; 2] m)
  = fst (FindMutualQuicTag [1; 2; 3] [2; 3; 3] m) /\
  out_result (snd (FindMutualQuicTag [1; 2; 3] [3; 2] m))
  = out_result (snd (FindMutualQuicTag [1; 2; 3] [2; 3; 3] m)).
Proof.
  apply (FindMutualQuicTag_peer_order_irrelevant
           [1; 2; 3] [3; 2] [2; 3; 3]
           {| out_result := 0; out_index := Some 0%nat |}).
  intros t. cbn [In]. split; intros H; tauto.
Defined.

(** X5: tags of ours that the peer does not have are passed over, and tags
    after the first match are never looked at: with a prefix [skipped] of
    tags absent from the peer vector the result is that of the rest of the
    vector, and once a match is found in [our], appending any [more] tags
    leaves the whole result unchanged. *)
Theorem FindMutualQuicTag_priority :
  forall (skipped our more their : list QuicTag) (m : OutParams),
    ((forall t, In t skipped -> ~ In t their) ->
     FindMutualQuicTag (skipped ++ our) their m
     = FindMutualQuicTag our their m) /\
    (fst (FindMutualQuicTag our their m) = true ->
     FindMutualQuicTag (our ++ more) their m
     = FindMutualQuicTag our their m).
Proof.
  intros skipped our more their m. unfold FindMutualQuicTag. split.
  - induction skipped as [|x rest IH]; intros Hs; [reflexivity|].
    cbn [app outer_loop].
    assert (E : inner_loop x their 0 m = None)
      by (apply inner_loop_none, Hs; now left).
    rewrite E. apply IH. intros t Hin. apply Hs. now right.
  - induction our as [|x rest IH]; cbn [app outer_loop fst];
      [discriminate|].
    destruct (inner_loop x their 0 m); [reflexivity | exact IH].
Qed.

Lemma FindMutualQuicTag_priority_witness :
  let m := {| out_result := 0; out_index := Some 0%nat |} in
  FindMutualQuicTag ([4; 5] ++ [6; 7]) [7; 6] m
  = FindMutualQuicTag [6; 7] [7; 6] m /\
  FindMutualQuicTag ([6; 7] ++ [8]) [7; 6] m
  = FindMutualQuicTag [6; 7] [7; 6] m.
Proof.
  pose (m := {| out_result := 0; out_index := Some 0%nat |}).
  split.
  - apply (proj1 (FindMutualQuicTag_priority [4; 5] [6; 7] [] [7; 6] m)).
    intros t. cbn [In]. intros H1 H2. lia.
  - apply (proj2 (FindMutualQuicTag_priority [] [6; 7] [8] [7; 6] m)).
    reflexivity.
Defined.

(** ** MakeQuicTag byte by byte, on either kind of platform *)

Lemma lor_byte_bound (x y : Z) :
  0 <= x < 256 -> 0 <= y < 256 -> 0 <= Z.lor x y < 256.
Proof.
  intros Hx Hy.
  assert (Hnn : 0 <= Z.lor x y) by (apply Z.lor_nonneg; lia).
  split; [assumption|].
  destruct (Z.eq_dec (Z.lor x y) 0) as [->|Hnz]; [lia|].
  change 256 with (2 ^ 8). apply Z.log2_lt_pow2; [lia|].
  rewrite Z.log2_lor by lia.
  assert (Hlx : Z.log2 x < 8).
  { destruct (Z.eq_dec x 0) as [->|]; [reflexivity|].
    apply Z.log2_lt_pow2; [lia|]. change (2 ^ 8) with 256. lia. }
  assert (Hly : Z.log2 y < 8).
  { destruct (Z.eq_dec y 0) as [->|]; [reflexivity|].
    apply Z.log2_lt_pow2; [lia|]. change (2 ^ 8) with 256. lia. }
  lia.
Qed.

Lemma lor_split_byte (lo h lo' h' : Z) :
  0 <= lo < 256 -> 0 <= lo' < 256 ->
  Z.lor (lo + 256 * h) (lo' + 256 * h')
  = Z.lor lo lo' + 256 * Z.lor h h'.
Proof.
  intros Hlo Hlo'.
  assert (E : forall l x, 0 <= l < 256 ->
                          l + 256 * x = Z.lor (Z.shiftl x 8) l).
  { intros l x Hl. rewrite lor_shiftl_low by (pow2_consts; lia).
    pow2_consts. lia. }
  rewrite (E lo h Hlo), (E lo' h' Hlo').
  rewrite (E (Z.lor lo lo') (Z.lor h h')) by now apply lor_byte_bound.
  rewrite Z.shiftl_lor.
  apply Z.bits_inj'. intros n _. rewrite !Z.lor_spec.
  destruct (Z.testbit (Z.shiftl h 8) n), (Z.testbit lo n),
           (Z.testbit (Z.shiftl h' 8) n), (Z.testbit lo' n); reflexivity.
Qed.

Lemma lor_word (x0 x1 x2 x3 y0 y1 y2 y3 : Z) :
  0 <= x0 < 256 -> 0 <= x1 < 256 -> 0 <= x2 < 256 ->
  0 <= y0 < 256 -> 0 <= y1 < 256 -> 0 <= y2 < 256 ->
  Z.lor (word_of_bytes x0 x1 x2 x3) (word_of_bytes y0 y1 y2 y3)
  = word_of_bytes (Z.lor x0 y0) (Z.lor x1 y1) (Z.lor x2 y2) (Z.lor x3 y3).
Proof.
  intros. unfold word_of_bytes.
  replace (x0 + 256 * x1 + 65536 * x2 + 16777216 * x3)
    with (x0 + 256 * (x1 + 256 * (x2 + 256 * x3))) by lia.
  replace (y0 + 256 * y1 + 65536 * y2 + 16777216 * y3)
    with (y0 + 256 * (y1 + 256 * (y2 + 256 * y3))) by lia.
  rewrite !lor_split_byte by assumption. lia.
Qed.

Lemma lor_255_byte (x : Z) : 0 <= x < 256 -> Z.lor 255 x = 255.
Proof.
  intros Hx. apply Z.bits_inj'. intros n Hn. rewrite Z.lor_spec.
  destruct (Z.ltb_spec n 8) as [Hlt|Hge].
  - change 255 with (Z.ones 8). rewrite Z.ones_spec_low by lia. reflexivity.
  - change 255 with (Z.ones 8). rewrite Z.ones_spec_high by lia.
    cbn [orb]. destruct (Z.eq_dec x 0) as [->|]; [apply Z.bits_0|].
    apply Z.bits_above_log2; [lia|].
    apply Z.lt_le_trans with 8; [|assumption].
    apply Z.log2_lt_pow2; [lia|]. change (2 ^ 8) with 256. lia.
Qed.

Lemma fill_range (e : bool) : 0 <= fill e < 256.
Proof.
  destruct e; cbn [fill]; lia.
Qed.

Lemma char_to_uint32_word (p : Platform) (c : ascii) :
  char_to_uint32 p c
  = word_of_bytes (uchar c) (fill (sign_extends p c))
                  (fill (sign_extends p c)) (fill (sign_extends p c)).
Proof.
  unfold char_to_uint32, sign_extends, word_of_bytes.
  pose proof (uchar_range c).
  destruct (char_is_signed p && (128 <=? uchar c)); cbn [fill]; [|lia].
  unfold wrap32, uint32_mod. pow2_consts.
  symmetry. apply (Z.mod_unique_pos _ _ (-1)); lia.
Qed.

Lemma shifted_char_words (p : Platform) (c : ascii) :
  wrap32 (Z.shiftl (char_to_uint32 p c) 8)
  = word_of_bytes 0 (uchar c) (fill (sign_extends p c))
                  (fill (sign_extends p c)) /\
  wrap32 (Z.shiftl (char_to_uint32 p c) 16)
  = word_of_bytes 0 0 (uchar c) (fill (sign_extends p c)) /\
  wrap32 (Z.shiftl (char_to_uint32 p c) 24)
  = word_of_bytes 0 0 0 (uchar c).
Proof.
  rewrite char_to_uint32_word. unfold word_of_bytes, wrap32, uint32_mod.
  pose proof (uchar_range c).
  rewrite !Z.shiftl_mul_pow2 by lia. pow2_consts.
  destruct (sign_extends p c); cbn [fill]; repeat split.
  - symmetry. apply (Z.mod_unique_pos _ _ 255); lia.
  - symmetry. apply (Z.mod_unique_pos _ _ 65535); lia.
  - symmetry. apply (Z.mod_unique_pos _ _ 16777215 ); lia.
  - symmetry. apply (Z.mod_unique_pos _ _ 0); lia.
  - symmetry. apply (Z.mod_unique_pos _ _ 0); lia.
  - symmetry. apply (Z.mod_unique_pos _ _ 0); lia.
Qed.

Lemma MakeQuicTag_word (p : Platform) (a b c d : ascii) :
  MakeQuicTag p a b c d
  = word_of_bytes
      (uchar a)
      (if sign_extends p a then 255 else uchar b)
      (if sign_extends p a || sign_extends p b then 255 else uchar c)
      (if sign_extends p a || sign_extends p b || sign_extends p c
       then 255 else uchar d).
Proof.
  unfold MakeQuicTag.
  destruct (shifted_char_words p b) as (Eb & _ & _).
  destruct (shifted_char_words p c) as (_ & Ec & _).
  destruct (shifted_char_words p d) as (_ & _ & Ed).
  rewrite Eb, Ec, Ed, char_to_uint32_word.
  pose proof (uchar_range a). pose proof (uchar_range b).
  pose proof (uchar_range c). pose proof (uchar_range d).
  pose proof (fill_range (sign_extends p a)).
  pose proof (fill_range (sign_extends p b)).
  assert (Z0 : 0 <= 0 < 256) by lia.
  rewrite lor_word by assumption.
  rewrite lor_word by (try assumption; apply lor_byte_bound; assumption).
  rewrite lor_word
    by (try assumption; repeat apply lor_byte_bound; assumption).
  rewrite !Z.lor_0_r.
  destruct (sign_extends p a), (sign_extends p b), (sign_extends p c);
    cbn [fill orb]; rewrite ?Z.lor_0_l, ?Z.lor_0_r;
    change (Z.lor 255 255) with 255;
    rewrite ?lor_255_byte by assumption; reflexivity.
Qed.

(** X6: on every platform [MakeQuicTag] yields a 32-bit value whose lowest
    byte is its first argument; each higher byte is the argument of that
    position unless an argument before it is sign-extended (plain [char]
    signed and the argument 0x80 or more), in which case it is 0xff. *)
Theorem MakeQuicTag_bytes :
  forall (p : Platform) (a b c d : ascii),
    is_uint32 (MakeQuicTag p a b c d) /\
    raw_bytes (MakeQuicTag p a b c d)
    = [uchar a;
       if sign_extends p a then 255 else uchar b;
       if sign_extends p a || sign_extends p b then 255 else uchar c;
       if sign_extends p a || sign_extends p b || sign_extends p c
       then 255 else uchar d].
Proof.
  intros p a b c d. rewrite MakeQuicTag_word.
  set (b1 := if sign_extends p a then 255 else uchar b).
  set (b2 := if sign_extends p a || sign_extends p b then 255 else uchar c).
  set (b3 := if sign_extends p a || sign_extends p b || sign_extends p c
             then 255 else uchar d).
  pose proof (uchar_range a) as Ha. pose proof (uchar_range b) as Hb.
  pose proof (uchar_range c) as Hc. pose proof (uchar_range d) as Hd.
  assert (B1 : 0 <= b1 < 256) by (subst b1; destruct (sign_extends p a); lia).
  assert (B2 : 0 <= b2 < 256)
    by (subst b2; destruct (sign_extends p a || sign_extends p b); lia).
  assert (B3 : 0 <= b3 < 256)
    by (subst b3;
        destruct (sign_extends p a || sign_extends p b || sign_extends p c);
        lia).
  split.
  - unfold is_uint32, uint32_mod, word_of_bytes. pow2_consts. lia.
  - destruct (tag_byte_sum (uchar a) b1 b2 b3 Ha B1 B2 B3)
      as (E0 & E1 & E2 & E3).
    unfold raw_bytes, word_of_bytes. cbv zeta in E0, E1, E2, E3.
    now rewrite E0, E1, E2, E3.
Qed.

(** X7: the tag made of four printable characters is displayed as those
    four characters, on every platform. *)
Theorem QuicTagToString_MakeQuicTag_printable :
  forall (p : Platform) (a b c d : ascii),
    isprint (uchar a) = true -> isprint (uchar b) = true ->
    isprint (uchar c) = true -> isprint (uchar d) = true ->
    QuicTagToString p (MakeQuicTag p a b c d) = [a; b; c; d].
Proof.
  intros p a b c d Pa Pb Pc Pd.
  pose proof (isprint_range _ Pa). pose proof (isprint_range _ Pb).
  pose proof (isprint_range _ Pc). pose proof (isprint_range _ Pd).
  assert (Hraw : raw_bytes (MakeQuicTag p a b c d)
                 = [uchar a; uchar b; uchar c; uchar d])
    by (apply MakeQuicTag_bytes_plain; right; lia).
  unfold raw_bytes in Hraw. injection Hraw as E0 E1 E2 E3.
  assert (Hshown : shown_bytes (MakeQuicTag p a b c d)
                   = [uchar a; uchar b; uchar c; uchar d]).
  { unfold shown_bytes, high_byte_shown. rewrite E0, E1, E2, E3.
    destruct (Z.eqb_spec (uchar d) 0); [lia|].
    destruct (Z.eqb_spec (uchar d) 255); [lia|]. reflexivity. }
  rewrite QuicTagToString_printable.
  - rewrite Hshown. cbn [map]. now rewrite !to_char_uchar.
  - intros Hz. rewrite Hz in E0. unfold tag_byte in E0.
    rewrite Z.shiftr_0_l in E0. cbn in E0. lia.
  - rewrite Hshown. cbn [forallb]. now rewrite Pa, Pb, Pc, Pd.
Qed.

Lemma QuicTagToString_MakeQuicTag_printable_witness :
  QuicTagToString signed_le (MakeQuicTag signed_le "Q" "B" "I" "C")
  = ["Q"; "B"; "I"; "C"]%char.
Proof.
  apply (QuicTagToString_MakeQuicTag_printable signed_le "Q" "B" "I" "C");
    reflexivity.
Defined.

(** ** ParseQuicTag in closed form *)

Lemma fold_shift_in_le_value (l : cstring) :
  fold_left shift_in (rev l) 0 = le_value l mod uint32_mod.
Proof.
  induction l as [|c rest IH].
  - reflexivity.
  - cbn [rev le_value]. rewrite fold_left_app. cbn [fold_left].
    rewrite IH, shift_in_eq. unfold uint32_mod.
    rewrite Z.mul_mod_idemp_l by lia.
    pose proof (uchar_range c) as Hc.
    set (y := (le_value rest * 256) mod 2 ^ 32).
    assert (Hy : 0 <= y < 2 ^ 32) by (apply Z.mod_pos_bound; lia).
    assert (Hm : y mod 256 = 0).
    { unfold y. rewrite Z.mod_mod_divide by (exists (2 ^ 24); reflexivity).
      apply Z.mod_mul. lia. }
    replace (uchar c + 256 * le_value rest)
      with (uchar c + le_value rest * 256) by lia.
    rewrite <- Z.add_mod_idemp_r by lia. fold y.
    pose proof (Z.div_mod y 256 ltac:(lia)) as E. rewrite Hm in E.
    change (2 ^ 32) with (256 * 16777216) in *.
    assert (y / 256 < 16777216) by (apply Z.div_lt_upper_bound; lia).
    clearbody y. rewrite Z.mod_small; lia.
Qed.

Lemma le_value_nonneg (l : cstring) : 0 <= le_value l.
Proof.
  induction l as [|c rest IH]; cbn [le_value]; [lia|].
  pose proof (uchar_range c). lia.
Qed.

Lemma le_value_first_four (l : cstring) :
  le_value l mod uint32_mod = le_value (firstn 4 l).
Proof.
  unfold uint32_mod. pow2_consts.
  destruct l as [|a [|b [|c [|d rest]]]]; cbn [firstn le_value].
  - reflexivity.
  - pose proof (uchar_range a). apply Z.mod_small. lia.
  - pose proof (uchar_range a). pose proof (uchar_range b).
    apply Z.mod_small. lia.
  - pose proof (uchar_range a). pose proof (uchar_range b).
    pose proof (uchar_range c). apply Z.mod_small. lia.
  - pose proof (uchar_range a). pose proof (uchar_range b).
    pose proof (uchar_range c). pose proof (uchar_range d).
    symmetry. apply (Z.mod_unique_pos _ _ (le_value rest)); lia.
Qed.

Lemma ParseQuicTag_tag_text (HexDecode : cstring -> cstring) (s : cstring) :
  ParseQuicTag HexDecode s
  = fold_left shift_in (rev (tag_text HexDecode s)) 0.
Proof.
  reflexivity.
Qed.

(** X8: [ParseQuicTag] returns the number denoted, least significant byte
    first, by the first four bytes of its text (the trimmed input, hex
    decoded when eight characters long); bytes after the fourth have no
    influence. *)
Theorem ParseQuicTag_first_four_bytes :
  forall (HexDecode : cstring -> cstring) (s : cstring),
    ParseQuicTag HexDecode s
    = le_value (tag_text HexDecode s) mod uint32_mod /\
    ParseQuicTag HexDecode s = le_value (firstn 4 (tag_text HexDecode s)).
Proof.
  intros HexDecode s. rewrite ParseQuicTag_tag_text.
  rewrite fold_shift_in_le_value. split; [reflexivity|].
  apply le_value_first_four.
Qed.

(** ** White space around a tag *)

Lemma drop_space_app_space (sp x : cstring) :
  forallb is_space sp = true -> drop_space (sp ++ x) = drop_space x.
Proof.
  induction sp as [|c rest IH]; cbn [forallb app drop_space]; [reflexivity|].
  intros H. apply andb_prop in H. destruct H as [Hc Hrest].
  rewrite Hc. auto.
Qed.

Lemma forallb_rev {A : Type} (f : A -> bool) (l : list A) :
  forallb f (rev l) = forallb f l.
Proof.
  induction l as [|x rest IH]; [reflexivity|].
  cbn [rev forallb]. rewrite forallb_app, IH. cbn [forallb].
  rewrite andb_true_r. apply andb_comm.
Qed.

Lemma drop_space_app (x y : cstring) :
  drop_space (x ++ y)
  = match drop_space x with
    | [] => drop_space y
    | _ :: _ => drop_space x ++ y
    end.
Proof.
  induction x as [|c rest IH]; cbn [app drop_space].
  - destruct (drop_space y); reflexivity.
  - destruct (is_space c); [exact IH | reflexivity].
Qed.

Lemma drop_space_split (s : cstring) :
  exists k, s = k ++ drop_space s /\ forallb is_space k = true.
Proof.
  induction s as [|c rest (k & E & Hk)]; cbn [drop_space].
  - exists []. split; reflexivity.
  - destruct (is_space c) eqn:Hc.
    + exists (c :: k). cbn [app forallb]. rewrite Hc, Hk.
      split; [now f_equal | reflexivity].
    + exists []. split; reflexivity.
Qed.

Lemma trim_pad_right (s sp : cstring) :
  forallb is_space sp = true ->
  RemoveLeadingAndTrailingWhitespace (s ++ sp)
  = RemoveLeadingAndTrailingWhitespace s.
Proof.
  intros Hsp. unfold RemoveLeadingAndTrailingWhitespace.
  rewrite drop_space_app.
  destruct (drop_space s) as [|c rest] eqn:E.
  - rewrite (drop_space_all sp Hsp). reflexivity.
  - rewrite rev_app_distr.
    rewrite drop_space_app_space by (rewrite forallb_rev; exact Hsp).
    reflexivity.
Qed.

Lemma trim_pad (sp s sp' : cstring) :
  forallb is_space sp = true -> forallb is_space sp' = true ->
  RemoveLeadingAndTrailingWhitespace (sp ++ s ++ sp')
  = RemoveLeadingAndTrailingWhitespace s.
Proof.
  intros Hsp Hsp'. rewrite <- (trim_pad_right s sp' Hsp').
  unfold RemoveLeadingAndTrailingWhitespace.
  now rewrite drop_space_app_space.
Qed.

Lemma trim_split (s : cstring) :
  exists k k',
    s = k ++ RemoveLeadingAndTrailingWhitespace s ++ k' /\
    forallb is_space k = true /\ forallb is_space k' = true.
Proof.
  destruct (drop_space_split s) as (k & Ek & Hk).
  destruct (drop_space_split (rev (drop_space s))) as (k' & Ek' & Hk').
  exists k, (rev k'). unfold RemoveLeadingAndTrailingWhitespace.
  rewrite <- rev_app_distr, <- Ek', rev_involutive, forallb_rev.
  auto.
Qed.

Lemma drop_space_same_trimmed (s : cstring) :
  same_trimmed (drop_space s) s.
Proof.
  unfold same_trimmed.
  destruct (drop_space_split s) as (k & Ek & Hk).
  rewrite Ek at 2.
  rewrite <- (app_nil_r (drop_space s)) at 2.
  now rewrite trim_pad.
Qed.

Lemma drop_space_right_same_trimmed (s : cstring) :
  same_trimmed (drop_space_right s) s.
Proof.
  unfold same_trimmed, drop_space_right.
  destruct (drop_space_split (rev s)) as (k & Ek & Hk).
  assert (E : s = rev (drop_space (rev s)) ++ rev k).
  { rewrite <- rev_app_distr, <- Ek. now rewrite rev_involutive. }
  rewrite E at 2. rewrite trim_pad_right; [reflexivity|].
  now rewrite forallb_rev.
Qed.

Lemma trim_same_trimmed (s : cstring) :
  same_trimmed (RemoveLeadingAndTrailingWhitespace s) s.
Proof.
  unfold same_trimmed.
  destruct (trim_split s) as (k & k' & E & Hk & Hk').
  rewrite E at 2. now rewrite trim_pad.
Qed.

Lemma ParseQuicTag_same_trimmed (HexDecode : cstring -> cstring)
      (a b : cstring) :
  same_trimmed a b -> ParseQuicTag HexDecode a = ParseQuicTag HexDecode b.
Proof.
  unfold same_trimmed, ParseQuicTag. now intros ->.
Qed.

(** X9: white space around the text does not change the tag:
    [ParseQuicTag] gives the same result with any white space added before
    and after its input, and on its already trimmed input. *)
Theorem ParseQuicTag_ignores_outer_space :
  forall (HexDecode : cstring -> cstring) (sp s sp' : cstring),
    forallb is_space sp = true -> forallb is_space sp' = true ->
    ParseQuicTag HexDecode (sp ++ s ++ sp') = ParseQuicTag HexDecode s /\
    ParseQuicTag HexDecode (RemoveLeadingAndTrailingWhitespace s)
    = ParseQuicTag HexDecode s.
Proof.
  intros HexDecode sp s sp' Hsp Hsp'. split.
  - apply ParseQuicTag_same_trimmed. unfold same_trimmed.
    now apply trim_pad.
  - apply ParseQuicTag_same_trimmed, trim_same_trimmed.
Qed.

Lemma ParseQuicTag_ignores_outer_space_witness :
  ParseQuicTag HexDecodeLenient (lit "   " ++ lit "QB C" ++ lit "  ")
  = ParseQuicTag HexDecodeLenient (lit "QB C") /\
  ParseQuicTag HexDecodeLenient
               (RemoveLeadingAndTrailingWhitespace (lit "QB C"))
  = ParseQuicTag HexDecodeLenient (lit "QB C").
Proof.
  apply (ParseQuicTag_ignores_outer_space
           HexDecodeLenient (lit "   ") (lit "QB C") (lit "  "));
    reflexivity.
Defined.

(** ** The text QuicTagToString produces, and parsing it back *)

Lemma lower_hex_printable (c : ascii) :
  is_lower_hex c = true -> isprint (uchar c) = true.
Proof.
  unfold is_lower_hex, isprint. intros H.
  apply orb_prop in H. destruct H as [H|H];
    apply andb_prop in H; destruct H as [H1 H2];
    apply Z.leb_le in H1, H2; apply andb_true_intro; split;
    apply Z.leb_le; lia.
Qed.

Lemma printable_not_space_char (c : ascii) :
  isprint (uchar c) = true -> uchar c <> 32 -> is_space c = false.
Proof.
  intros Hp Hne. rewrite <- (to_char_uchar c).
  now apply printable_not_space.
Qed.

Lemma lower_hex_not_space (c : ascii) :
  is_lower_hex c = true -> is_space c = false.
Proof.
  intros H. apply printable_not_space_char.
  - now apply lower_hex_printable.
  - unfold is_lower_hex in H. apply orb_prop in H. destruct H as [H|H];
      apply andb_prop in H; destruct H as [H1 H2];
      apply Z.leb_le in H1, H2; lia.
Qed.

Lemma trim_ends (c d : ascii) (mid : cstring) :
  is_space c = false -> is_space d = false ->
  RemoveLeadingAndTrailingWhitespace (c :: mid ++ [d]) = c :: mid ++ [d].
Proof.
  intros Hc Hd. unfold RemoveLeadingAndTrailingWhitespace.
  cbn [drop_space]. rewrite Hc.
  change (c :: mid ++ [d]) with ((c :: mid) ++ [d]).
  rewrite rev_app_distr. cbn [rev app drop_space]. rewrite Hd.
  change (d :: rev mid ++ [c]) with ([d] ++ rev (c :: mid)).
  rewrite rev_app_distr, rev_involutive. reflexivity.
Qed.

Lemma HexEncode_four_trimmed (a b c d : ascii) :
  RemoveLeadingAndTrailingWhitespace (HexEncode [a; b; c; d])
  = HexEncode [a; b; c; d].
Proof.
  unfold HexEncode. cbn [flat_map app].
  destruct (hex_digits_lower a) as [Ha _].
  destruct (hex_digits_lower d) as [_ Hd].
  apply (trim_ends _ _ [_; _; _; _; _; _]); now apply lower_hex_not_space.
Qed.

Lemma forallb_printable_map (l : list Z) :
  forallb isprint l = true ->
  forallb (fun c => isprint (uchar c)) (map to_char l) = true.
Proof.
  induction l as [|b rest IH]; cbn [forallb map]; [reflexivity|].
  intros H. apply andb_prop in H. destruct H as [Hb Hrest].
  pose proof (isprint_range _ Hb).
  rewrite uchar_to_char, Z.mod_small by lia. rewrite Hb. auto.
Qed.

(** X10: whatever the tag, [QuicTagToString] returns printable ASCII
    characters only, and its text is one character long for tag 0, four
    for a tag it shows as characters, eight for a tag it shows in hex. *)
Theorem QuicTagToString_shape :
  forall (p : Platform) (tag : QuicTag),
    forallb (fun c => isprint (uchar c)) (QuicTagToString p tag) = true /\
    length (QuicTagToString p tag)
    = if tag =? 0 then 1%nat
      else if forallb isprint (shown_bytes tag) then 4%nat else 8%nat.
Proof.
  intros p tag. destruct (Z.eqb_spec tag 0) as [->|Hnz].
  - split; reflexivity.
  - destruct (forallb isprint (shown_bytes tag)) eqn:E.
    + rewrite QuicTagToString_printable by assumption.
      split; [now apply forallb_printable_map | reflexivity].
    + rewrite QuicTagToString_unprintable by assumption.
      rewrite HexEncode_length, object_bytes_length. split; [|reflexivity].
      apply forallb_forall. intros c Hin.
      apply lower_hex_printable.
      pose proof (HexEncode_lower (object_bytes p tag)) as Hl.
      rewrite forallb_forall in Hl. now apply Hl.
Qed.

Lemma le_value_to_char_four (x0 x1 x2 x3 : Z) :
  le_value [to_char x0; to_char x1; to_char x2; to_char x3]
  = word_of_bytes (x0 mod 256) (x1 mod 256) (x2 mod 256) (x3 mod 256).
Proof.
  cbn [le_value]. rewrite !uchar_to_char. unfold word_of_bytes. lia.
Qed.

Lemma word_of_bytes_uint32 (b0 b1 b2 b3 : Z) :
  0 <= b0 < 256 -> 0 <= b1 < 256 -> 0 <= b2 < 256 -> 0 <= b3 < 256 ->
  word_of_bytes b0 b1 b2 b3 mod uint32_mod = word_of_bytes b0 b1 b2 b3.
Proof.
  intros. apply Z.mod_small. unfold word_of_bytes, uint32_mod.
  pow2_consts. lia.
Qed.

Lemma tag_bytes_shifts (tag : Z) :
  tag mod 256 = tag_byte tag 0 /\
  Z.shiftr tag 8 mod 256 = tag_byte tag 1 /\
  Z.shiftr tag 16 mod 256 = tag_byte tag 2 /\
  Z.shiftr tag 24 mod 256 = tag_byte tag 3.
Proof.
  unfold tag_byte. change (8 * 0) with 0. rewrite Z.shiftr_0_r.
  repeat split.
Qed.

(** X11: a tag [QuicTagToString] shows in hex is read back from that text
    by [ParseQuicTag], given a hex decoder that returns the encoded bytes,
    as the same tag where memory is little-endian, and as the tag with its
    four bytes in reverse order where it is big-endian. *)
Theorem ParseQuicTag_hex_display :
  forall (HexDecode : cstring -> cstring) (p : Platform) (tag : QuicTag),
    is_uint32 tag -> tag <> 0 ->
    forallb isprint (shown_bytes tag) = false ->
    HexDecode (HexEncode (object_bytes p tag)) = object_bytes p tag ->
    ParseQuicTag HexDecode (QuicTagToString p tag)
    = if little_endian p then tag
      else word_of_bytes (tag_byte tag 3) (tag_byte tag 2)
                         (tag_byte tag 1) (tag_byte tag 0).
Proof.
  intros HexDecode p tag Ht Hnz Hunp Hdec.
  rewrite QuicTagToString_unprintable by assumption.
  rewrite ParseQuicTag_tag_text, fold_shift_in_le_value.
  assert (Htext : tag_text HexDecode (HexEncode (object_bytes p tag))
                  = object_bytes p tag).
  { unfold tag_text.
    assert (Htrim : RemoveLeadingAndTrailingWhitespace
                      (HexEncode (object_bytes p tag))
                    = HexEncode (object_bytes p tag)).
    { unfold object_bytes. destruct (little_endian p); cbn [rev app];
        apply HexEncode_four_trimmed. }
    rewrite Htrim, HexEncode_length, object_bytes_length. exact Hdec. }
  rewrite Htext. unfold object_bytes.
  destruct (tag_bytes_shifts tag) as (E0 & E1 & E2 & E3).
  pose proof (tag_byte_range tag 0). pose proof (tag_byte_range tag 1).
  pose proof (tag_byte_range tag 2). pose proof (tag_byte_range tag 3).
  destruct (little_endian p); cbn [rev app];
    rewrite le_value_to_char_four, E0, E1, E2, E3;
    rewrite word_of_bytes_uint32 by assumption.
  - unfold word_of_bytes. symmetry. now apply tag_decompose.
  - reflexivity.
Qed.

Lemma ParseQuicTag_hex_display_witness :
  ParseQuicTag HexDecodeLenient (QuicTagToString signed_le 3735928559)
  = if little_endian signed_le then 3735928559
    else word_of_bytes (tag_byte 3735928559 3) (tag_byte 3735928559 2)
                       (tag_byte 3735928559 1) (tag_byte 3735928559 0).
Proof.
  apply (ParseQuicTag_hex_display HexDecodeLenient signed_le 3735928559).
  - unfold is_uint32, uint32_mod. lia.
  - discriminate.
  - reflexivity.
  - reflexivity.
Defined.

Lemma trim_three (a b c : ascii) :
  is_space a = false -> is_space c = false ->
  RemoveLeadingAndTrailingWhitespace [a; b; c] = [a; b; c].
Proof.
  intros Ha Hc. exact (trim_ends a c [b] Ha Hc).
Qed.

(** X12: a tag whose three low bytes are printable, the first and third
    not a space, and whose high byte is 0x00 or 0xff is shown as its three
    characters and a space; [ParseQuicTag] reads that text as the three
    bytes with a zero high byte, which is the tag again when the high byte
    was 0x00 and the tag less 0xff000000 when it was 0xff. *)
Theorem ParseQuicTag_padded_display :
  forall (HexDecode : cstring -> cstring) (p : Platform) (t : QuicTag),
    is_uint32 t ->
    isprint (tag_byte t 0) = true -> isprint (tag_byte t 1) = true ->
    isprint (tag_byte t 2) = true ->
    tag_byte t 0 <> 32 -> tag_byte t 2 <> 32 ->
    tag_byte t 3 = 0 \/ tag_byte t 3 = 255 ->
    QuicTagToString p t
    = [to_char (tag_byte t 0); to_char (tag_byte t 1);
       to_char (tag_byte t 2); " "%char] /\
    ParseQuicTag HexDecode (QuicTagToString p t)
    = word_of_bytes (tag_byte t 0) (tag_byte t 1) (tag_byte t 2) 0 /\
    (tag_byte t 3 = 0 -> ParseQuicTag HexDecode (QuicTagToString p t) = t) /\
    (tag_byte t 3 = 255 ->
     ParseQuicTag HexDecode (QuicTagToString p t) = t - 4278190080).
Proof.
  intros HexDecode p t Ht P0 P1 P2 N0 N2 Hhigh.
  assert (Hnz : t <> 0) by (intros ->; discriminate P0).
  assert (Hshown : shown_bytes t
                   = [tag_byte t 0; tag_byte t 1; tag_byte t 2; 32]).
  { unfold shown_bytes, high_byte_shown.
    destruct Hhigh as [-> | ->]; reflexivity. }
  assert (Hdisp : QuicTagToString p t
                  = [to_char (tag_byte t 0); to_char (tag_byte t 1);
                     to_char (tag_byte t 2); " "%char]).
  { rewrite QuicTagToString_printable; [now rewrite Hshown | assumption |].
    rewrite Hshown. cbn [forallb]. now rewrite P0, P1, P2. }
  assert (Hparse : ParseQuicTag HexDecode (QuicTagToString p t)
                   = word_of_bytes (tag_byte t 0) (tag_byte t 1)
                                   (tag_byte t 2) 0).
  { rewrite Hdisp, ParseQuicTag_tag_text, fold_shift_in_le_value.
    unfold tag_text.
    change [to_char (tag_byte t 0); to_char (tag_byte t 1);
            to_char (tag_byte t 2); " "%char]
      with ([to_char (tag_byte t 0); to_char (tag_byte t 1);
             to_char (tag_byte t 2)] ++ [" "%char]).
    rewrite trim_pad_right by reflexivity.
    rewrite trim_three by (apply printable_not_space; assumption).
    cbn [length Nat.eqb le_value]. rewrite !uchar_to_char.
    pose proof (tag_byte_range t 0). pose proof (tag_byte_range t 1).
    pose proof (tag_byte_range t 2).
    rewrite (Z.mod_small (tag_byte t 0)), (Z.mod_small (tag_byte t 1)),
      (Z.mod_small (tag_byte t 2)) by lia.
    unfold word_of_bytes, uint32_mod. pow2_consts.
    rewrite Z.mod_small; lia. }
  pose proof (tag_decompose t Ht) as Hdec.
  repeat split; try assumption.
  - intros H3. rewrite Hparse. unfold word_of_bytes. rewrite H3 in Hdec. lia.
  - intros H3. rewrite Hparse. unfold word_of_bytes. rewrite H3 in Hdec. lia.
Qed.

Lemma ParseQuicTag_padded_display_witness :
  QuicTagToString signed_le 4407873
  = [to_char (tag_byte 4407873 0); to_char (tag_byte 4407873 1);
     to_char (tag_byte 4407873 2); " "%char] /\
  ParseQuicTag HexDecodeLenient (QuicTagToString signed_le 4407873)
  = word_of_bytes (tag_byte 4407873 0) (tag_byte 4407873 1)
                  (tag_byte 4407873 2) 0 /\
  (tag_byte 4407873 3 = 0 ->
   ParseQuicTag HexDecodeLenient (QuicTagToString signed_le 4407873)
   = 4407873) /\
  (tag_byte 4407873 3 = 255 ->
   ParseQuicTag HexDecodeLenient (QuicTagToString signed_le 4407873)
   = 4407873 - 4278190080).
Proof.
  apply (ParseQuicTag_padded_display HexDecodeLenient signed_le 4407873).
  - unfold is_uint32, uint32_mod. lia.
  - reflexivity.
  - reflexivity.
  - reflexivity.
  - vm_compute. discriminate.
  - vm_compute. discriminate.
  - left. reflexivity.
Defined.

(** ** ParseQuicTagVector piece by piece *)

Lemma Split_no_delim (s : cstring) (d : ascii) :
  ~ In d s -> Split s d = [s].
Proof.
  induction s as [|c rest IH]; intros Hn; cbn [Split]; [reflexivity|].
  destruct (Ascii.eqb_spec c d) as [->|Hne].
  - exfalso. apply Hn. now left.
  - rewrite IH; [reflexivity|]. intros Hin. apply Hn. now right.
Qed.

Lemma Split_prefix_no_delim (k x : cstring) (d : ascii) :
  ~ In d k ->
  Split (k ++ x) d
  = match Split x d with
    | p :: ps => (k ++ p) :: ps
    | [] => []
    end.
Proof.
  induction k as [|c rest IH]; intros Hn; cbn [app].
  - destruct (Split x d); reflexivity.
  - cbn [Split]. destruct (Ascii.eqb_spec c d) as [->|Hne].
    + exfalso. apply Hn. now left.
    + rewrite IH by (intros Hin; apply Hn; now right).
      pose proof (Split_nonempty x d) as Hx.
      destruct (Split x d); [contradiction | reflexivity].
Qed.

Lemma Split_suffix_no_delim (x y : cstring) (d : ascii) :
  ~ In d y ->
  Split (x ++ y) d
  = removelast (Split x d) ++ [last (Split x d) [] ++ y].
Proof.
  intros Hn. induction x as [|c rest IH]; cbn [app].
  - cbn. now apply Split_no_delim.
  - cbn [Split]. rewrite IH.
    pose proof (Split_nonempty rest d) as Hr.
    destruct (Split rest d) as [|p ps]; [contradiction|].
    destruct (Ascii.eqb c d).
    + reflexivity.
    + destruct ps as [|q qs]; reflexivity.
Qed.

Lemma space_free_of (k : cstring) (d : ascii) :
  forallb is_space k = true -> is_space d = false -> ~ In d k.
Proof.
  intros Hk Hd Hin. rewrite forallb_forall in Hk.
  specialize (Hk d Hin). congruence.
Qed.

Lemma map_Split_trim (f : cstring -> QuicTag) (s : cstring) (d : ascii) :
  is_space d = false ->
  (forall a b, same_trimmed a b -> f a = f b) ->
  map f (Split s d)
  = map f (Split (RemoveLeadingAndTrailingWhitespace s) d).
Proof.
  intros Hd Hf.
  destruct (trim_split s) as (k & k' & E & Hk & Hk').
  set (t := RemoveLeadingAndTrailingWhitespace s) in *.
  assert (Hright : forall x, f (x ++ k') = f x).
  { intros x. apply Hf. unfold same_trimmed. now apply trim_pad_right. }
  assert (Hleft : forall x, f (k ++ x) = f x).
  { intros x. apply Hf. unfold same_trimmed.
    rewrite <- (app_nil_r x) at 1. now apply trim_pad. }
  assert (Hmid : map f (Split (t ++ k') d) = map f (Split t d)).
  { rewrite Split_suffix_no_delim by now apply space_free_of.
    rewrite map_app. cbn [map]. rewrite Hright.
    rewrite (app_removelast_last [] (Split_nonempty t d)) at 3.
    rewrite map_app. reflexivity. }
  rewrite E at 1. rewrite Split_prefix_no_delim by now apply space_free_of.
  rewrite <- Hmid.
  pose proof (Split_nonempty (t ++ k') d) as Hne.
  destruct (Split (t ++ k') d) as [|p ps]; [contradiction|].
  cbn [map]. now rewrite Hleft.
Qed.

Lemma Split_length (s : cstring) (d : ascii) :
  length (Split s d) = S (count_occ ascii_dec s d).
Proof.
  induction s as [|c rest IH]; [reflexivity|].
  cbn [Split count_occ].
  destruct (Ascii.eqb_spec c d) as [->|Hne].
  - destruct (ascii_dec d d); [|contradiction]. cbn [length]. now rewrite IH.
  - destruct (ascii_dec c d); [contradiction|].
    pose proof (Split_nonempty rest d) as Hr.
    destruct (Split rest d); [contradiction|]. exact IH.
Qed.

(** X13: unless the input is blank, the white space [ParseQuicTagVector]
    removes around the whole input changes nothing: the result is
    [ParseQuicTag] of each comma-separated piece of the input as given, in
    order; an input with no comma gives the single tag [ParseQuicTag]
    reads from it. *)
Theorem ParseQuicTagVector_pieces :
  forall (HexDecode : cstring -> cstring) (s : cstring),
    RemoveLeadingAndTrailingWhitespace s <> [] ->
    ParseQuicTagVector HexDecode s
    = map (ParseQuicTag HexDecode) (Split s ","%char) /\
    (~ In ","%char s ->
     ParseQuicTagVector HexDecode s = [ParseQuicTag HexDecode s]).
Proof.
  intros HexDecode s Hne.
  assert (E : ParseQuicTagVector HexDecode s
              = map (ParseQuicTag HexDecode) (Split s ","%char)).
  { rewrite (map_Split_trim (ParseQuicTag HexDecode) s ","%char);
      [| reflexivity | apply ParseQuicTag_same_trimmed].
    unfold ParseQuicTagVector.
    destruct (RemoveLeadingAndTrailingWhitespace s);
      [contradiction | reflexivity]. }
  split; [exact E|].
  intros Hn. rewrite E, Split_no_delim by assumption. reflexivity.
Qed.

Lemma ParseQuicTagVector_pieces_witness :
  ParseQuicTagVector HexDecodeLenient (lit "  QBIC , AB ,CD  ")
  = map (ParseQuicTag HexDecodeLenient)
        (Split (lit "  QBIC , AB ,CD  ") ","%char) /\
  (~ In ","%char (lit "  QBIC , AB ,CD  ") ->
   ParseQuicTagVector HexDecodeLenient (lit "  QBIC , AB ,CD  ")
   = [ParseQuicTag HexDecodeLenient (lit "  QBIC , AB ,CD  ")]).
Proof.
  apply (ParseQuicTagVector_pieces HexDecodeLenient
           (lit "  QBIC , AB ,CD  ")).
  discriminate.
Defined.

(** X14: [ParseQuicTagVector] returns no tag for blank input, and
    otherwise one more tag than there are commas in the input, each of
    them a 32-bit value. *)
Theorem ParseQuicTagVector_length :
  forall (HexDecode : cstring -> cstring) (s : cstring),
    length (ParseQuicTagVector HexDecode s)
    = match RemoveLeadingAndTrailingWhitespace s with
      | [] => 0%nat
      | _ :: _ => S (count_occ ascii_dec s ","%char)
      end /\
    Forall is_uint32 (ParseQuicTagVector HexDecode s).
Proof.
  intros HexDecode s. split.
  - destruct (RemoveLeadingAndTrailingWhitespace s) as [|c rest] eqn:E.
    + unfold ParseQuicTagVector. now rewrite E.
    + assert (Hne : RemoveLeadingAndTrailingWhitespace s <> [])
        by (rewrite E; discriminate).
      pose proof (map_Split_trim (ParseQuicTag HexDecode) s ","%char
                    eq_refl (ParseQuicTag_same_trimmed HexDecode)) as Hm.
      unfold ParseQuicTagVector. rewrite E. rewrite <- E, <- Hm.
      now rewrite length_map, Split_length.
  - unfold ParseQuicTagVector.
    destruct (RemoveLeadingAndTrailingWhitespace s) as [|c rest];
      [constructor|].
    apply Forall_forall. intros t Hin. apply in_map_iff in Hin.
    destruct Hin as (piece & <- & _).
    unfold ParseQuicTag. apply fold_shift_in_uint32.
    unfold is_uint32, uint32_mod. lia.
Qed.

(** ** Parsing against MakeQuicTag, and lists of displayed tags *)

Lemma plain_nul (p : Platform) : plain_char p nul.
Proof.
  right. vm_compute. reflexivity.
Qed.

Lemma ParseQuicTag_trimmed_short (HexDecode : cstring -> cstring)
      (l : cstring) :
  RemoveLeadingAndTrailingWhitespace l = l -> (length l <= 4)%nat ->
  ParseQuicTag HexDecode l = le_value l.
Proof.
  intros Htrim Hlen.
  rewrite ParseQuicTag_tag_text, fold_shift_in_le_value.
  unfold tag_text. rewrite Htrim.
  destruct (Nat.eqb_spec (length l) 8); [lia|].
  rewrite le_value_first_four. now rewrite firstn_all2 by lia.
Qed.

(** X15: for at most four characters that convert to their byte value
    (7-bit ones, or any where [char] is unsigned), with no white space at
    either end, [ParseQuicTag] returns what [MakeQuicTag] returns for those
    characters followed by NULs. *)
Theorem ParseQuicTag_is_MakeQuicTag :
  forall (HexDecode : cstring -> cstring) (p : Platform) (l : cstring),
    (length l <= 4)%nat ->
    RemoveLeadingAndTrailingWhitespace l = l ->
    Forall (plain_char p) l ->
    ParseQuicTag HexDecode l
    = MakeQuicTag p (nth 0 l nul) (nth 1 l nul) (nth 2 l nul) (nth 3 l nul).
Proof.
  intros HexDecode p l Hlen Htrim Hplain.
  rewrite ParseQuicTag_trimmed_short by assumption.
  assert (Hnth : forall i, plain_char p (nth i l nul)).
  { intros i. destruct (Nat.lt_ge_cases i (length l)) as [Hi|Hi].
    - rewrite Forall_forall in Hplain. apply Hplain. now apply nth_In.
    - rewrite nth_overflow by assumption. apply plain_nul. }
  rewrite MakeQuicTag_sum by apply Hnth.
  assert (Hnul : uchar nul = 0) by reflexivity.
  destruct l as [|a [|b [|c [|d [|e rest]]]]]; cbn [nth le_value];
    rewrite ?Hnul; try lia.
  cbn [length] in Hlen. lia.
Qed.

Lemma ParseQuicTag_is_MakeQuicTag_witness :
  ParseQuicTag HexDecodeLenient (lit "QB")
  = MakeQuicTag signed_le (nth 0 (lit "QB") nul) (nth 1 (lit "QB") nul)
                (nth 2 (lit "QB") nul) (nth 3 (lit "QB") nul).
Proof.
  apply (ParseQuicTag_is_MakeQuicTag HexDecodeLenient signed_le (lit "QB")).
  - cbn. lia.
  - reflexivity.
  - repeat constructor; right; vm_compute; reflexivity.
Defined.

Lemma Split_comma_join (pieces : list cstring) :
  pieces <> [] -> Forall (fun piece => ~ In ","%char piece) pieces ->
  Split (comma_join pieces) ","%char = pieces.
Proof.
  induction pieces as [|piece rest IH]; intros Hne Hfree; [contradiction|].
  inversion Hfree as [|? ? Hp Hrest]; subst.
  destruct rest as [|q rest].
  - cbn [comma_join]. now apply Split_no_delim.
  - change (comma_join (piece :: q :: rest))
      with (piece ++ ","%char :: comma_join (q :: rest)).
    rewrite Split_prefix_no_delim by assumption.
    cbn [Split]. rewrite Ascii.eqb_refl.
    rewrite IH by (try discriminate; assumption).
    now rewrite app_nil_r.
Qed.

Lemma roundtrip_printable (HexDecode : cstring -> cstring) (p : Platform)
      (t : QuicTag) :
  list_safe t ->
  QuicTagToString p t = map to_char (raw_bytes t) /\
  ParseQuicTag HexDecode (QuicTagToString p t) = t.
Proof.
  intros (Ht & Hp & H0 & H3 & _).
  pose proof Hp as Hp'. unfold raw_bytes in Hp'. cbn [forallb] in Hp'.
  apply andb_prop in Hp'. destruct Hp' as [P0 Hp'].
  apply andb_prop in Hp'. destruct Hp' as [P1 Hp'].
  apply andb_prop in Hp'. destruct Hp' as [P2 Hp'].
  apply andb_prop in Hp'. destruct Hp' as [P3 _].
  assert (Hnz : t <> 0) by (intros ->; discriminate P0).
  assert (Hshown : shown_bytes t = raw_bytes t).
  { unfold shown_bytes, raw_bytes, high_byte_shown.
    pose proof (isprint_range _ P3).
    destruct (Z.eqb_spec (tag_byte t 3) 0); [lia|].
    destruct (Z.eqb_spec (tag_byte t 3) 255); [lia|]. reflexivity. }
  assert (Hdisp : QuicTagToString p t = map to_char (raw_bytes t)).
  { rewrite QuicTagToString_printable; [now rewrite Hshown | assumption |].
    now rewrite Hshown. }
  split; [exact Hdisp|].
  rewrite Hdisp. unfold raw_bytes. cbn [map].
  rewrite ParseQuicTag_four by (apply printable_not_space; assumption).
  rewrite !uchar_to_char, !Z.mod_small by apply tag_byte_range.
  symmetry. now apply tag_decompose.
Qed.

Lemma display_comma_free (p : Platform) (t : QuicTag) :
  list_safe t -> ~ In ","%char (QuicTagToString p t).
Proof.
  intros Hs Hin.
  destruct (roundtrip_printable (fun x => x) p t Hs) as [Hdisp _].
  destruct Hs as (_ & _ & _ & _ & Hfree).
  rewrite Hdisp in Hin. apply in_map_iff in Hin.
  destruct Hin as (b & Hb & Hbin). apply Hfree.
  assert (E : b = 44).
  { apply (f_equal uchar) in Hb. rewrite uchar_to_char in Hb.
    unfold raw_bytes in Hbin. cbn [In] in Hbin.
    assert (0 <= b < 256)
      by (destruct Hbin as [<-|[<-|[<-|[<-|[]]]]]; apply tag_byte_range).
    rewrite Z.mod_small in Hb by assumption. exact Hb. }
  now rewrite <- E.
Qed.

Lemma comma_join_displays_not_blank (p : Platform) (t : QuicTag)
      (rest : list QuicTag) :
  list_safe t ->
  RemoveLeadingAndTrailingWhitespace
    (comma_join (map (QuicTagToString p) (t :: rest))) <> [].
Proof.
  intros Hs Hblank.
  destruct (roundtrip_printable (fun x => x) p t Hs) as [Hdisp _].
  destruct Hs as (_ & Hp & H0 & _).
  unfold raw_bytes in Hp. cbn [forallb] in Hp.
  apply andb_prop in Hp. destruct Hp as [P0 _].
  pose proof (printable_not_space _ P0 H0) as Hc.
  set (text := comma_join (map (QuicTagToString p) (t :: rest))) in *.
  assert (Hhead : exists tl, text = to_char (tag_byte t 0) :: tl).
  { unfold text. cbn [map]. rewrite Hdisp. unfold raw_bytes. cbn [map].
    destruct (map (QuicTagToString p) rest); cbn [comma_join app];
      eexists; reflexivity. }
  destruct Hhead as (tl & Htext).
  destruct (trim_split text) as (k & k' & E & Hk & Hk').
  rewrite Hblank, Htext in E. cbn [app] in E.
  assert (Hall : forallb is_space (k ++ k') = true)
    by (rewrite forallb_app, Hk, Hk'; reflexivity).
  rewrite <- E in Hall. cbn [forallb] in Hall. rewrite Hc in Hall.
  discriminate.
Qed.

(** X16: a list written as the displayed tags separated by commas parses
    back to the list: for a non-empty list of tags each made of four
    printable bytes, none a comma, the first and last not a space,
    [ParseQuicTagVector] of the comma-joined [QuicTagToString] texts is the
    list itself. *)
Theorem ParseQuicTagVector_of_displays :
  forall (HexDecode : cstring -> cstring) (p : Platform)
         (tags : list QuicTag),
    tags <> [] -> Forall list_safe tags ->
    ParseQuicTagVector HexDecode
                       (comma_join (map (QuicTagToString p) tags))
    = tags.
Proof.
  intros HexDecode p tags Hne Hsafe.
  destruct tags as [|t rest]; [contradiction|].
  inversion Hsafe as [|? ? Ht Hrest]; subst.
  pose proof (comma_join_displays_not_blank p t rest Ht) as Hnb.
  set (text := comma_join (map (QuicTagToString p) (t :: rest))) in *.
  assert (E : ParseQuicTagVector HexDecode text
              = map (ParseQuicTag HexDecode) (Split text ","%char)).
  { rewrite (map_Split_trim (ParseQuicTag HexDecode) text ","%char);
      [| reflexivity | apply ParseQuicTag_same_trimmed].
    unfold ParseQuicTagVector.
    destruct (RemoveLeadingAndTrailingWhitespace text);
      [contradiction | reflexivity]. }
  rewrite E. unfold text. rewrite Split_comma_join.
  - rewrite map_map. clear E Hnb text Hne.
    induction Hsafe as [|u us Hu Hus IH]; [reflexivity|].
    cbn [map]. f_equal.
    + now apply roundtrip_printable.
    + apply IH. 
  - discriminate.
  - apply Forall_forall. intros piece Hin. apply in_map_iff in Hin.
    destruct Hin as (u & <- & Hu). apply display_comma_free.
    rewrite Forall_forall in Hsafe. now apply Hsafe.
Qed.

Lemma ParseQuicTagVector_of_displays_witness :
  ParseQuicTagVector HexDecodeLenient
    (comma_join (map (QuicTagToString signed_le) [1128874577; 1145258561]))
  = [1128874577; 1145258561].
Proof.
  apply (ParseQuicTagVector_of_displays
           HexDecodeLenient signed_le [1128874577; 1145258561]).
  - discriminate.
  - repeat constructor; try discriminate;
      (vm_compute; intuition discriminate).
Defined.
